(** * The topic cache controller of the RabbitMQ connector

    A shallow embedding of [pkg/openfaas/cacher.go]: the [Controller] that
    crawls the OpenFaaS gateway for functions, records which function is
    subscribed to which topic and fans an incoming message out to the
    functions of its topic.

    The collaborators the controller only sees through Go interfaces
    ([FunctionCrawler], [TopicMapBuilder], [TopicMap]) are type classes
    here; the controller's methods are written in a small state-and-output
    monad that threads the collaborators' state and collects, in order, the
    calls made on the crawler and the lines written to the log. *)

From Stdlib Require Import Ascii String.
From stdpp Require Import base option list strings gmap fin_maps.

(** ** Go library pieces used by the controller *)

(** [strings.Split(s, sep)] for a separator of one byte, the only way the
    controller calls it: the pieces of [s] between the occurrences of [sep],
    in order; a string without [sep] (the empty one included) is its own and
    only piece. *)
Fixpoint Split (s : string) (sep : ascii) : list string :=
  match s with
  | EmptyString => [EmptyString]
  | String c rest =>
      if Ascii.eqb c sep then EmptyString :: Split rest sep
      else match Split rest sep with
           | piece :: pieces => String c piece :: pieces
           | [] => [String c EmptyString]
           end
  end.

(** [strings.Join(pieces, sep)], used to say what [Split] keeps. *)
Fixpoint Join (pieces : list string) (sep : ascii) : string :=
  match pieces with
  | [] => EmptyString
  | [piece] => piece
  | piece :: rest => piece +:+ String sep (Join rest sep)
  end.

(** Does the byte [c] occur in [s]? *)
Fixpoint occurs (c : ascii) (s : string) : bool :=
  match s with
  | EmptyString => false
  | String d rest => Ascii.eqb d c || occurs c rest
  end.

(** [strings.Count(s, sep)] for a separator of one byte. *)
Fixpoint Count (s : string) (sep : ascii) : nat :=
  match s with
  | EmptyString => 0
  | String c rest => (if Ascii.eqb c sep then 1 else 0) + Count rest sep
  end.

(** [fmt.Sprintf("%s.%s", a, b)]. *)
Definition Sprintf_dot (a b : string) : string := a +:+ "." +:+ b.

(** ** Function records *)

(** [types.FunctionStatus] of faas-provider, with the two fields the
    controller reads. [Annotations] is a pointer to a map: [None] is the nil
    pointer. *)
Record FunctionStatus : Type := mkFunctionStatus {
  Name : string;
  Annotations : option (gmap string string)
}.

(** [Controller.extractTopicsFromAnnotations]; the receiver is not used. *)
Definition extractTopicsFromAnnotations (fn : FunctionStatus) : list string :=
  let topics := [] in
  match Annotations fn with
  | Some annotations =>
      match annotations !! "topic" with
      | Some topicNames => Split topicNames ","%char
      | None => topics
      end
  | None => topics
  end.

(** ** The collaborators

    The interfaces are declared elsewhere in the package; the controller
    only calls them. Go's [error], [*types2.OpenFaaSInvocation] and the first
    result of [InvokeAsync] stay abstract. Every crawler method returns a
    value together with an error ([None] is Go's [nil]); a method may change
    the crawler's own state [W] (the gateway behind it), so it returns the
    next state as well. The [context.Context] arguments carry no data the
    controller reads, except for the cancellation handled in [refresh]. *)

(** A snapshot, Go's [map[string][]string]: topic to function identifiers. *)
Abbreviation TopicIndex := (gmap string (list string)).

Class FunctionCrawler (error Invocation Response W : Type) : Type := {
  HasNamespaceSupport : W → bool * option error * W;
  GetNamespaces : W → list string * option error * W;
  GetFunctions : string → W → list FunctionStatus * option error * W;
  InvokeAsync : string → Invocation → W → Response * option error * W
}.

(** [TopicMapBuilder], with the constructor [NewFunctionMapBuilder] of
    the builder [refreshTick] uses. [Append] updates the builder in place in
    Go; here it returns the updated builder. *)
Class TopicMapBuilder (B : Type) : Type := {
  NewFunctionMapBuilder : B;
  Append : string → string → B → B;
  Build : B → TopicIndex
}.

(** [TopicMap], the cache the controller reads and refreshes. *)
Class TopicMap (C : Type) : Type := {
  GetCachedValues : string → C → list string;
  Refresh : TopicIndex → C → C
}.

(** Modelled from the spec: the builder behind [NewFunctionMapBuilder],
    which the package declares outside [cacher.go]. The spec's Builder
    accumulates topic to function-identifier associations; appending adds one
    association at the end of the topic's list, a pair appended twice is
    listed twice, and [Build] returns the accumulated mapping. *)
Definition FunctionMapBuilder : Type := TopicIndex.

#[export] Instance FunctionMapBuilder_TopicMapBuilder : TopicMapBuilder FunctionMapBuilder := {
  NewFunctionMapBuilder := ∅;
  Append topic function target := <[topic := default [] (target !! topic) ++ [function]]> target;
  Build target := target
}.

(** Modelled from the spec: the Topic Cache behind [TopicMap], which the
    package declares outside [cacher.go]. It holds the currently published
    snapshot; a lookup returns the topic's list and the empty list for an
    unknown topic; publishing replaces the whole snapshot. *)
Definition TopicFunctionCache : Type := TopicIndex.

#[export] Instance TopicFunctionCache_TopicMap : TopicMap TopicFunctionCache := {
  GetCachedValues name topicMap := default [] (topicMap !! name);
  Refresh update _ := update
}.

(** ** What the controller does to the outside

    The lines the controller writes with [log.Printf] and [log.Println], by
    format string and arguments, and the calls it makes on the crawler. *)
Inductive logline (error : Type) : Type :=
  | InvocationFailed (topic : string) (err : error)
      (* "Invocation for topic %s failed due to err %s" *)
  | InvocationFinished (topic : string) (n : nat)
      (* "Invocation for topic %s finished on %d function(s)" *)
  | ReceivedDone
      (* "Received done via context will stop refreshing cache" *)
  | CrawlingNamespaces
      (* "Crawling namespaces for functions" *)
  | FetchingNamespacesFailed (err : error)
      (* "Received the following error during fetching namespaces %s" *)
  | CrawlingFunctions
      (* "Crawling for functions" *)
  | CrawlingFinished
      (* "Crawling finished will now refresh the cache" *)
  | FetchingFunctionsFailed (err : error) (ns : string).
      (* "Received %s while fetching functions on namespace %s" *)

Arguments InvocationFailed {error} topic err.
Arguments InvocationFinished {error} topic n.
Arguments ReceivedDone {error}.
Arguments CrawlingNamespaces {error}.
Arguments FetchingNamespacesFailed {error} err.
Arguments CrawlingFunctions {error}.
Arguments CrawlingFinished {error}.
Arguments FetchingFunctionsFailed {error} err ns.

Inductive event (error Invocation : Type) : Type :=
  | CallHasNamespaceSupport
  | CallGetNamespaces
  | CallGetFunctions (ns : string)
  | CallInvokeAsync (fn : string) (invocation : Invocation)
  | Log (line : logline error).

Arguments CallHasNamespaceSupport {error Invocation}.
Arguments CallGetNamespaces {error Invocation}.
Arguments CallGetFunctions {error Invocation} ns.
Arguments CallInvokeAsync {error Invocation} fn invocation.
Arguments Log {error Invocation} line.

(** The case one [select] of the refresh loop takes: the ticker's
    ([<-ticker.C]) or the context's ([<-ctx.Done()]). Which case a [select]
    takes is not decided by the order in which a tick and the cancellation
    arrive: when both are ready Go picks one of them at random. *)
Inductive signal : Type := Tick | Done.

(** [config.Controller], with the field the controller reads: the period of
    the refresh timer, a [time.Duration] (nanoseconds). *)
Record Config : Type := mkConfig {
  TopicRefreshTime : Z
}.

(** How a call ends: it returns, or it panics. *)
Inductive outcome : Type := Returned | Panicked.

(** The [Controller] struct: the crawler (its state) and the cache. The
    [conf] pointer, which no method changes and only [Start] reads, is an
    argument of [Start]. *)
Record Controller (W C : Type) : Type := mkController {
  client : W;
  cache : C
}.

Arguments mkController {W C} client cache.
Arguments client {W C} c.
Arguments cache {W C} c.

(** ** The monad of the methods *)

Section Method.
Variables (error Invocation W C : Type).

(** A method body: from the controller's state to a result, the next
    state, and the calls and log lines it produced, oldest first. *)
Definition Method (A : Type) : Type :=
  Controller W C → A * Controller W C * list (event error Invocation).

Definition ret {A} (a : A) : Method A := λ c, (a, c, []).

Definition bind {A A'} (m : Method A) (k : A → Method A') : Method A' :=
  λ c, let '(a, c1, out1) := m c in
       let '(a', c2, out2) := k a c1 in
       (a', c2, out1 ++ out2).
End Method.

Arguments ret {error Invocation W C A} a.
Arguments bind {error Invocation W C A A'} m k.

Declare Scope method_scope.
Notation "x ← m ; k" := (bind m (λ x, k))
  (at level 20, m at level 100, k at level 200, only parsing) : method_scope.
Notation "' x ← m ; k" := (bind m (λ x, k))
  (at level 20, x pattern, m at level 100, k at level 200, only parsing) : method_scope.
Notation "m ;; k" := (bind m (λ _, k))
  (at level 100, k at level 200, only parsing, right associativity) : method_scope.
Local Open Scope method_scope.

(** ** The controller's methods *)

Section Cacher.
Context {error Invocation Response W B C : Type}.
Context `{!FunctionCrawler error Invocation Response W}.
Context `{!TopicMapBuilder B} `{!TopicMap C}.

Local Abbreviation M := (Method error Invocation W C).

Definition println (line : logline error) : M unit :=
  λ c, (tt, c, [Log line]).

Definition on_client {A} (call : event error Invocation)
    (method : W → A * option error * W) : M (A * option error) :=
  λ c, let '(a, err, w) := method (client c) in
       (a, err, mkController w (cache c), [call]).

Definition client_HasNamespaceSupport : M (bool * option error) :=
  on_client CallHasNamespaceSupport HasNamespaceSupport.
Definition client_GetNamespaces : M (list string * option error) :=
  on_client CallGetNamespaces GetNamespaces.
Definition client_GetFunctions (ns : string) : M (list FunctionStatus * option error) :=
  on_client (CallGetFunctions ns) (GetFunctions ns).
Definition client_InvokeAsync (fn : string) (invocation : Invocation) : M (Response * option error) :=
  on_client (CallInvokeAsync fn invocation) (InvokeAsync fn invocation).

Definition cache_GetCachedValues (topic : string) : M (list string) :=
  λ c, (GetCachedValues topic (cache c), c, []).
Definition cache_Refresh (update : TopicIndex) : M unit :=
  λ c, (tt, mkController (client c) (Refresh update (cache c)), []).

(** The [for _, fn := range functions] loop of [Invoke]: [Some err] when
    the loop was left by [return err]. *)
Fixpoint Invoke_range (topic : string) (invocation : Invocation)
    (functions : list string) : M (option error) :=
  match functions with
  | [] => ret None
  | fn :: rest =>
      '(_, err) ← client_InvokeAsync fn invocation;
      match err with
      | Some e => println (InvocationFailed topic e);; ret (Some e)
      | None => Invoke_range topic invocation rest
      end
  end.

(** [Controller.Invoke]. *)
Definition Invoke (topic : string) (invocation : Invocation) : M (option error) :=
  functions ← cache_GetCachedValues topic;
  returned ← Invoke_range topic invocation functions;
  match returned with
  | Some e => ret (Some e)
  | None => println (InvocationFinished topic (length functions));; ret None
  end.

(** The [for _, topic := range topics] loop of [crawlFunctions]. *)
Fixpoint crawlFunctions_topics (ns : string) (fn : FunctionStatus)
    (topics : list string) (builder : B) : B :=
  match topics with
  | [] => builder
  | topic :: rest =>
      crawlFunctions_topics ns fn rest
        (if bool_decide (0 < String.length ns) (* len(ns) > 0 *)
         then Append topic (Sprintf_dot (Name fn) ns) builder
         else Append topic (Name fn) builder)
  end.

(** The [for _, fn := range found] loop of [crawlFunctions]. *)
Fixpoint crawlFunctions_found (ns : string) (found : list FunctionStatus)
    (builder : B) : B :=
  match found with
  | [] => builder
  | fn :: rest =>
      let topics := extractTopicsFromAnnotations fn in
      crawlFunctions_found ns rest (crawlFunctions_topics ns fn topics builder)
  end.

(** [Controller.crawlFunctions]; it returns the builder it filled. *)
Fixpoint crawlFunctions (namespaces : list string) (builder : B) : M B :=
  match namespaces with
  | [] => ret builder
  | ns :: rest =>
      '(found, err) ← client_GetFunctions ns;
      found ← match err with
              | Some e => println (FetchingFunctionsFailed e ns);; ret []
              | None => ret found
              end;
      crawlFunctions rest (crawlFunctions_found ns found builder)
  end.

(** [Controller.refreshTick]. *)
Definition refreshTick (hasNamespaceSupport : bool) : M unit :=
  let builder := NewFunctionMapBuilder in
  namespaces ←
    (if hasNamespaceSupport then
       println CrawlingNamespaces;;
       '(namespaces, err) ← client_GetNamespaces;
       match err with
       | Some e => println (FetchingNamespacesFailed e);; ret []
       | None => ret namespaces
       end
     else ret [""]);
  println CrawlingFunctions;;
  builder ← crawlFunctions namespaces builder;
  println CrawlingFinished;;
  cache_Refresh (Build builder).

(** [Controller.refresh]: the loop around the [select]. [taken] lists the
    cases the successive [select]s take, the first iteration's first. The
    ticker's case runs one crawl cycle and loops; the context's case logs
    and leaves the loop; when the list ends the loop is still running. *)
Fixpoint refresh (taken : list signal) (hasNamespaceSupport : bool) : M unit :=
  match taken with
  | [] => ret tt
  | Tick :: rest => refreshTick hasNamespaceSupport;; refresh rest hasNamespaceSupport
  | Done :: _ => println ReceivedDone
  end.

(** [Controller.Start], followed by the goroutine it starts. [conf] is the
    controller's [conf] pointer ([None] is nil). After the namespace check,
    [time.NewTicker(c.conf.TopicRefreshTime)] panics when the pointer is nil
    and when the period is not positive; otherwise the initial crawl runs and
    then the refresh loop, whose [select]s take the cases [taken]. *)
Definition Start (conf : option Config) (taken : list signal) : M outcome :=
  '(hasNamespaceSupport, _) ← client_HasNamespaceSupport;
  match conf with
  | Some conf =>
      if bool_decide (0 < TopicRefreshTime conf)%Z then
        refreshTick hasNamespaceSupport;;
        refresh taken hasNamespaceSupport;;
        ret Returned
      else ret Panicked
  | None => ret Panicked
  end.

(** ** Vocabulary of the statements *)

(** [invoked_all invocation w fns w']: calling [InvokeAsync] on the
    functions [fns] one after the other, starting with the crawler in state
    [w], returns no error for any of them and leaves the crawler in [w']. *)
Inductive invoked_all (invocation : Invocation) : W → list string → W → Prop :=
  | invoked_nil w : invoked_all invocation w [] w
  | invoked_cons w fn r w1 fns w2 :
      InvokeAsync fn invocation w = (r, None, w1) →
      invoked_all invocation w1 fns w2 →
      invoked_all invocation w (fn :: fns) w2.

(** The functions one crawl over [namespaces] finds, each with its
    namespace, in the order of discovery; [w] is the crawler's state when
    the crawl starts. This follows the spec's words (a namespace whose
    fetch fails has no functions) and is compared with [crawlFunctions]. *)
Fixpoint discovered (namespaces : list string) (w : W) : list (string * FunctionStatus) :=
  match namespaces with
  | [] => []
  | ns :: rest =>
      let '(found, err, w') := GetFunctions ns w in
      match err with
      | Some _ => discovered rest w'
      | None => map (pair ns) found ++ discovered rest w'
      end
  end.

(** The invocation calls among some events, in order. *)
Definition invocations (out : list (event error Invocation)) : list string :=
  omap (λ ev, match ev with CallInvokeAsync fn _ => Some fn | _ => None end) out.

(** The namespaces whose functions were fetched, in order. *)
Definition fetched (out : list (event error Invocation)) : list string :=
  omap (λ ev, match ev with CallGetFunctions ns => Some ns | _ => None end) out.

(** Was the list of namespaces fetched? *)
Definition listed_namespaces (out : list (event error Invocation)) : bool :=
  existsb (λ ev, match ev with CallGetNamespaces => true | _ => false end) out.

End Cacher.

(** The crawl cycles the refresh loop runs when its [select]s take the
    cases [taken]: the ticker's cases before the first case of the context. *)
Fixpoint cycles (taken : list signal) : nat :=
  match taken with
  | Tick :: rest => S (cycles rest)
  | _ => 0
  end.

(** The identifier the spec gives a function [name] found in namespace
    [ns]: the name alone in the pseudo-namespace, name.namespace otherwise. *)
Definition identifier (ns name : string) : string :=
  if decide (ns = "") then name else name +:+ "." +:+ ns.

(** The associations the spec asks one crawl to append, in order: for each
    discovered function, each of its topics with the function's identifier. *)
Definition associations (found : list (string * FunctionStatus)) : list (string * string) :=
  flat_map (λ entry, map (λ topic, (topic, identifier entry.1 (Name entry.2)))
                         (extractTopicsFromAnnotations entry.2)) found.

(** The identifiers listed under [topic] among associations in order. *)
Definition listed_under (topic : string) (pairs : list (string * string)) : list string :=
  omap (λ pair, if decide (pair.1 = topic) then Some pair.2 else None) pairs.

(** ** A scripted gateway for the examples

    A crawler whose answers are fixed in advance: the answer of the namespace
    check, the list of namespaces, the functions of each namespace and the
    functions whose invocation fails. Its state remembers the invocations it
    received. Errors are their messages. *)
Record Gateway : Type := mkGateway {
  gw_support : bool * option string;
  gw_namespaces : list string * option string;
  gw_functions : list (string * (list FunctionStatus * option string));
  gw_failing : list string;
  gw_received : list string
}.

Definition gw_receive (fn : string) (g : Gateway) : Gateway :=
  mkGateway (gw_support g) (gw_namespaces g) (gw_functions g) (gw_failing g)
    (gw_received g ++ [fn]).

Definition gw_lookup (ns : string) (g : Gateway) : list FunctionStatus * option string :=
  match list_find (λ entry, bool_decide (entry.1 = ns)) (gw_functions g) with
  | Some (_, (_, answer)) => answer
  | None => ([], Some "namespace not found")
  end.

#[export] Instance Gateway_FunctionCrawler : FunctionCrawler string string bool Gateway := {
  HasNamespaceSupport g := (gw_support g, g);
  GetNamespaces g := (gw_namespaces g, g);
  GetFunctions ns g := (gw_lookup ns g, g);
  InvokeAsync fn _ g :=
    if bool_decide (fn ∈ gw_failing g)
    then (false, Some "invocation failed", gw_receive fn g)
    else (true, None, gw_receive fn g)
}.

Definition subscriber (name topicNames : string) : FunctionStatus :=
  mkFunctionStatus name (Some {[ "topic" := topicNames ]}).

(** Namespaces prod and dev, a function billing in each; invoking mail.dev
    fails. The gateway knows no namespace staging. *)
Definition shop : Gateway :=
  mkGateway (true, None) (["prod"; "dev"], None)
    [("prod", ([subscriber "billing" "order.created"], None));
     ("dev", ([subscriber "billing" "order.created,order.updated"], None))]
    ["mail.dev"] [].

(** The same gateway when its namespace check answers with an error next to
    the [true] it found. *)
Definition shop_flaky : Gateway :=
  mkGateway (true, Some "gateway timeout") (gw_namespaces shop)
    (gw_functions shop) (gw_failing shop) [].

(** The same gateway when its namespace check and its listing fail. *)
Definition shop_unreachable : Gateway :=
  mkGateway (false, Some "gateway unreachable") ([], Some "gateway unreachable")
    (gw_functions shop) (gw_failing shop) [].

(** A gateway without namespaces and with one function. *)
Definition single (fn : FunctionStatus) : Gateway :=
  mkGateway (false, None) ([], None) [("", ([fn], None))] [] [].

(** A cache in which three functions listen on one topic. *)
Definition three_listeners : TopicFunctionCache :=
  {[ "order.created" := ["billing.prod"; "mail.dev"; "audit.dev"] ]}.

(** A cache in which two topics have the same failing listener. *)
Definition two_topics : TopicFunctionCache :=
  {[ "order.created" := ["billing.prod"; "mail.dev"];
     "order.updated" := ["mail.dev"] ]}.

(** A refresh period of one minute. *)
Definition every_minute : Config := mkConfig 60000000000.

(** What one crawl of [shop] publishes. *)
Definition shop_snapshot : TopicIndex :=
  {[ "order.created" := ["billing.prod"; "billing.dev"];
     "order.updated" := ["billing.dev"] ]}.

(** ** Further vocabulary: counting events, the scan of a cycle *)

(** [NewController]: the controller over a crawler and a cache. The
    [conf] pointer it also stores is the argument of [Start]. *)
Definition NewController {W C : Type} (client : W) (cache : C) : Controller W C :=
  mkController client cache.

(** How many of the events satisfy [p]. *)
Definition count_events {error Invocation : Type}
    (p : event error Invocation → bool) (out : list (event error Invocation)) : nat :=
  length (List.filter p out).

(** The call of the namespace check. *)
Definition is_support_check {error Invocation : Type} (ev : event error Invocation) : bool :=
  match ev with CallHasNamespaceSupport => true | _ => false end.

(** The call that lists the namespaces. *)
Definition is_listing {error Invocation : Type} (ev : event error Invocation) : bool :=
  match ev with CallGetNamespaces => true | _ => false end.

(** The line a crawl cycle logs right before it refreshes the cache. *)
Definition is_cycle_end {error Invocation : Type} (ev : event error Invocation) : bool :=
  match ev with Log CrawlingFinished => true | _ => false end.

Section Scan.
Context {error Invocation Response W : Type}.
Context `{!FunctionCrawler error Invocation Response W}.

(** The first part of a crawl cycle, read off [refreshTick]: the namespaces
    the cycle will crawl, the crawler's state after it and what it produced.
    It is compared with [refreshTick] in [refreshTick_outcome]. *)
Definition scanned (hasNamespaceSupport : bool) (w : W)
    : list string * W * list (event error Invocation) :=
  if hasNamespaceSupport then
    let '(namespaces, err, w') := GetNamespaces w in
    match err with
    | Some e => ([], w', [Log CrawlingNamespaces; CallGetNamespaces;
                          Log (FetchingNamespacesFailed e)])
    | None => (namespaces, w', [Log CrawlingNamespaces; CallGetNamespaces])
    end
  else ([""], w, []).

(** The functions one cycle finds, each with its namespace, in the order of
    discovery. *)
Definition crawled (hasNamespaceSupport : bool) (w : W) : list (string * FunctionStatus) :=
  let '(namespaces, w', _) := scanned hasNamespaceSupport w in
  discovered namespaces w'.

End Scan.

(** ** Lemmas on [Split] *)

Lemma Split_not_nil s sep : Split s sep ≠ [].
Proof.
  destruct s as [|c rest]; simpl; [discriminate|].
  destruct (Ascii.eqb c sep); [discriminate|].
  destruct (Split rest sep); discriminate.
Qed.

Lemma Split_length s sep : length (Split s sep) = S (Count s sep).
Proof.
  induction s as [|c rest IH]; simpl; [reflexivity|].
  destruct (Ascii.eqb c sep); simpl; [by rewrite IH|].
  destruct (Split rest sep) as [|p ps] eqn:E; simpl in *; [discriminate|done].
Qed.

Lemma Join_Split s sep : Join (Split s sep) sep = s.
Proof.
  induction s as [|c rest IH]; simpl; [reflexivity|].
  destruct (Ascii.eqb c sep) eqn:Ec.
  - apply Ascii.eqb_eq in Ec as ->.
    pose proof (Split_not_nil rest sep) as Hne.
    simpl. destruct (Split rest sep) as [|p ps]; [done|].
    simpl in *. by rewrite IH.
  - pose proof (Split_not_nil rest sep) as Hne.
    destruct (Split rest sep) as [|p ps]; [done|].
    destruct ps as [|q qs]; simpl in *; by rewrite <- IH.
Qed.

Lemma Split_pieces_free s sep :
  Forall (λ piece, occurs sep piece = false) (Split s sep).
Proof.
  induction s as [|c rest IH]; simpl.
  - by constructor.
  - destruct (Ascii.eqb c sep) eqn:Ec.
    + by constructor.
    + destruct (Split rest sep) as [|p ps]; simpl.
      * constructor; [|constructor]. simpl. by rewrite Ec.
      * inversion IH; subst. constructor; [|done]. simpl. by rewrite Ec.
Qed.

Lemma Split_no_sep s sep : occurs sep s = false → Split s sep = [s].
Proof.
  induction s as [|c rest IH]; simpl; [done|].
  intros [Hc Hr]%orb_false_iff. rewrite Hc, (IH Hr). done.
Qed.

(** ** Topic extraction *)

Lemma extractTopics_annotated fn annotations topicNames :
  Annotations fn = Some annotations →
  annotations !! "topic" = Some topicNames →
  extractTopicsFromAnnotations fn = Split topicNames ",".
Proof. intros Ha Ht. unfold extractTopicsFromAnnotations. by rewrite Ha, Ht. Qed.

(** C9. The topics are the pieces of the annotation's value between its
    commas, with every other byte kept, spaces included: joined again with
    commas they give the value back, and the value a-comma-space-b gives the
    two topics a and space-b. *)
Theorem extractTopics_keeps_whitespace fn annotations :
  Annotations fn = Some annotations →
  (annotations !! "topic" = Some "a, b" →
     extractTopicsFromAnnotations fn = ["a"; " b"])
  ∧ (∀ topicNames, annotations !! "topic" = Some topicNames →
       Join (extractTopicsFromAnnotations fn) "," = topicNames).
Proof.
  intros Ha. split.
  - intros Ht. by rewrite (extractTopics_annotated _ _ _ Ha Ht).
  - intros topicNames Ht. rewrite (extractTopics_annotated _ _ _ Ha Ht).
    apply Join_Split.
Qed.

(** ** The methods, step by step *)

Section CacherFacts.
Context {error Invocation Response W B C : Type}.
Context `{!FunctionCrawler error Invocation Response W}.
Context `{!TopicMapBuilder B} `{!TopicMap C}.

Implicit Types (c : Controller W C) (builder : B) (invocation : Invocation).

Local Abbreviation M := (Method error Invocation W C).

Lemma bind_run {A A'} (m : M A) (k : A → M A') c a c1 out1 a' c2 out2 :
  m c = (a, c1, out1) → k a c1 = (a', c2, out2) →
  bind m k c = (a', c2, out1 ++ out2).
Proof. intros Hm Hk. unfold bind. by rewrite Hm, Hk. Qed.

Lemma on_client_run {A} (call : event error Invocation) (method : W → A * option error * W) c a err w :
  method (client c) = (a, err, w) →
  on_client call method c = (a, err, mkController w (cache c), [call]).
Proof. intros Hm. unfold on_client. by rewrite Hm. Qed.

(** ** Invocation *)

Lemma Invoke_range_all topic invocation w fns w' :
  invoked_all invocation w fns w' →
  ∀ ca : C, Invoke_range topic invocation fns (mkController w ca)
        = (None, mkController w' ca, (λ fn, CallInvokeAsync fn invocation) <$> fns).
Proof.
  induction 1 as [w|w fn r w1 fns w2 Hcall _ IH]; intros ca; [reflexivity|].
  cbn [Invoke_range]. unfold bind, client_InvokeAsync, on_client.
  cbn [client cache]. rewrite Hcall. cbn. by rewrite IH.
Qed.

Lemma Invoke_range_first_failure topic invocation w pre w1 fn r e w2 post :
  invoked_all invocation w pre w1 →
  InvokeAsync fn invocation w1 = (r, Some e, w2) →
  ∀ ca : C, Invoke_range topic invocation (pre ++ fn :: post) (mkController w ca)
        = (Some e, mkController w2 ca,
           ((λ fn, CallInvokeAsync fn invocation) <$> pre)
           ++ [CallInvokeAsync fn invocation; Log (InvocationFailed topic e)]).
Proof.
  intros Hpre Hfn.
  induction Hpre as [w|w fn0 r0 w1 fns w2' Hcall _ IH]; intros ca.
  - cbn [app Invoke_range]. unfold bind, client_InvokeAsync, on_client.
    cbn [client cache]. by rewrite Hfn.
  - cbn [app Invoke_range]. unfold bind, client_InvokeAsync, on_client.
    cbn [client cache]. rewrite Hcall. cbn. by rewrite (IH Hfn).
Qed.

(** Every run of the loop is one of the two: all calls succeed, or there
    is a first failing one. *)
Lemma Invoke_range_cases invocation fns w :
  (∃ w', invoked_all invocation w fns w')
  ∨ (∃ pre fn post w1 r e w2, fns = pre ++ fn :: post
       ∧ invoked_all invocation w pre w1
       ∧ InvokeAsync fn invocation w1 = (r, Some e, w2)).
Proof.
  revert w. induction fns as [|fn fns IH]; intros w.
  - left. eexists. constructor.
  - destruct (InvokeAsync fn invocation w) as [[r [e|]] w1] eqn:Hcall.
    + right. exists [], fn, fns, w, r, e, w1. split_and!; [done|constructor|done].
    + destruct (IH w1) as [[w' Hall]|(pre & fn' & post & w1' & r' & e & w2 & -> & Hpre & Hfail)].
      * left. exists w'. by econstructor.
      * right. exists (fn :: pre), fn', post, w1', r', e, w2.
        split_and!; [done| by econstructor |done].
Qed.

(** What the loop of [Invoke] gives back and the state it leaves do not
    depend on the topic: the topic only goes into the log line. *)
Lemma Invoke_range_any_topic topic topic' invocation fns c :
  (Invoke_range topic invocation fns c).1 = (Invoke_range topic' invocation fns c).1.
Proof.
  revert c. induction fns as [|fn fns IH]; intros c; [done|].
  cbn [Invoke_range]. unfold bind at 1 3. unfold client_InvokeAsync, on_client.
  destruct (InvokeAsync fn invocation (client c)) as [[r [e|]] w]; [done|].
  specialize (IH (mkController w (cache c))).
  destruct (Invoke_range topic invocation fns _) as [[r1 c1] out1].
  destruct (Invoke_range topic' invocation fns _) as [[r2 c2] out2].
  cbn in *. by rewrite IH.
Qed.

(** C1, as the code has it. [Invoke] calls [InvokeAsync] on the functions
    cached for the topic one after the other, in the order of the cached
    list, each call starting from the state the previous one left. If every
    call succeeds all of them are made and [Invoke] returns no error. If
    the call on [fn] is the first to fail, the functions before it and [fn]
    are the only ones invoked, the functions after it are not, and [Invoke]
    returns to its caller the error of that call as it is. The topic is
    named in the log line only: for two topics with the same cached list,
    what the caller gets back is the same. *)
Theorem Invoke_sequential_until_first_failure topic invocation c :
  (∀ w', invoked_all invocation (client c) (GetCachedValues topic (cache c)) w' →
     Invoke topic invocation c
     = (None, mkController w' (cache c),
        ((λ fn, CallInvokeAsync fn invocation) <$> GetCachedValues topic (cache c))
        ++ [Log (InvocationFinished topic (length (GetCachedValues topic (cache c))))]))
  ∧ (∀ pre fn post w1 r e w2,
       GetCachedValues topic (cache c) = pre ++ fn :: post →
       invoked_all invocation (client c) pre w1 →
       InvokeAsync fn invocation w1 = (r, Some e, w2) →
       Invoke topic invocation c
       = (Some e, mkController w2 (cache c),
          ((λ fn, CallInvokeAsync fn invocation) <$> pre)
          ++ [CallInvokeAsync fn invocation; Log (InvocationFailed topic e)])
       ∧ invocations (Invoke topic invocation c).2 = pre ++ [fn])
  ∧ (∀ topic',
       GetCachedValues topic' (cache c) = GetCachedValues topic (cache c) →
       (Invoke topic' invocation c).1 = (Invoke topic invocation c).1).
Proof.
  destruct c as [w ca]. cbn [client cache]. split_and!.
  - intros w' Hall. unfold Invoke, bind, cache_GetCachedValues. cbn [cache].
    rewrite (Invoke_range_all topic _ _ _ _ Hall). reflexivity.
  - intros pre fn post w1 r e w2 Hfns Hpre Hfail.
    assert (Invoke topic invocation (mkController w ca)
            = (Some e, mkController w2 ca,
               ((λ fn, CallInvokeAsync fn invocation) <$> pre)
               ++ [CallInvokeAsync fn invocation; Log (InvocationFailed topic e)])) as ->.
    { unfold Invoke, bind, cache_GetCachedValues. cbn [cache]. rewrite Hfns.
      rewrite (Invoke_range_first_failure topic _ _ _ _ _ _ _ _ post Hpre Hfail).
      cbn. by rewrite app_nil_r. }
    split; [reflexivity|]. cbn [snd]. unfold invocations.
    rewrite omap_app. cbn. f_equal.
    clear. induction pre as [|p pre IH]; [done|]. cbn. by rewrite IH.
  - intros topic' Hsame. unfold Invoke, bind, cache_GetCachedValues.
    cbn [cache]. rewrite Hsame.
    pose proof (Invoke_range_any_topic topic' topic invocation
                  (GetCachedValues topic ca) (mkController w ca)) as Hany.
    destruct (Invoke_range topic' invocation _ _) as [[r1 c1] out1].
    destruct (Invoke_range topic invocation _ _) as [[r2 c2] out2].
    cbn in Hany. injection Hany as -> ->. by destruct r2.
Qed.

(** C8. When the cache has no function for the topic, [Invoke] returns no
    error, leaves the controller as it was and calls the crawler not once:
    the log line is all it produces. *)
Theorem Invoke_without_functions topic invocation c :
  GetCachedValues topic (cache c) = [] →
  Invoke topic invocation c = (None, c, [Log (InvocationFinished topic 0)])
  ∧ invocations (Invoke topic invocation c).2 = [].
Proof.
  intros Hnone. destruct c as [w ca]. cbn [cache] in Hnone.
  assert (Invoke topic invocation (mkController w ca)
          = (None, mkController w ca, [Log (InvocationFinished topic 0)])) as ->.
  { unfold Invoke, bind, cache_GetCachedValues. cbn [cache]. by rewrite Hnone. }
  done.
Qed.

(** ** Crawling *)

Lemma nonempty_namespace (ns : string) :
  bool_decide (0 < String.length ns) = bool_decide (ns ≠ "").
Proof.
  destruct ns as [|a ns]; cbn.
  - rewrite !bool_decide_eq_false_2; [done|naive_solver|lia].
  - rewrite !bool_decide_eq_true_2; [done|done|lia].
Qed.

Lemma crawlFunctions_topics_foldl ns fn topics builder :
  crawlFunctions_topics ns fn topics builder
  = foldl (λ b topic, Append topic (identifier ns (Name fn)) b) builder topics.
Proof.
  revert builder. induction topics as [|topic rest IH]; intros builder; [done|].
  cbn [crawlFunctions_topics foldl]. rewrite IH. do 2 f_equal.
  rewrite nonempty_namespace. unfold identifier, Sprintf_dot.
  destruct (decide (ns = "")) as [->|Hns]; [done|].
  by rewrite bool_decide_eq_true_2.
Qed.

Lemma crawlFunctions_found_foldl ns found builder :
  crawlFunctions_found ns found builder
  = foldl (λ b pair, Append pair.1 pair.2 b) builder
      (associations (map (pair ns) found)).
Proof.
  revert builder. induction found as [|fn rest IH]; intros builder; [done|].
  cbn [crawlFunctions_found map]. rewrite IH, crawlFunctions_topics_foldl.
  unfold associations. cbn [flat_map fst snd]. rewrite foldl_app. f_equal.
  generalize (extractTopicsFromAnnotations fn). clear.
  intros topics. revert builder.
  induction topics as [|t ts IH]; intros builder; [done|]. cbn. by rewrite IH.
Qed.

Lemma crawlFunctions_fetched ns rest builder c found w :
  GetFunctions ns (client c) = (found, None, w) →
  crawlFunctions (ns :: rest) builder c
  = let '(b, c', out) := crawlFunctions rest (crawlFunctions_found ns found builder)
                           (mkController w (cache c)) in
    (b, c', CallGetFunctions ns :: out).
Proof.
  intros Hfetch. cbn [crawlFunctions]. unfold bind at 1 2.
  unfold client_GetFunctions, on_client. rewrite Hfetch. cbn.
  by destruct (crawlFunctions rest _ _) as [[b c'] out].
Qed.

Lemma crawlFunctions_fetch_failed ns rest builder c found e w :
  GetFunctions ns (client c) = (found, Some e, w) →
  crawlFunctions (ns :: rest) builder c
  = let '(b, c', out) := crawlFunctions rest builder (mkController w (cache c)) in
    (b, c', CallGetFunctions ns :: Log (FetchingFunctionsFailed e ns) :: out).
Proof.
  intros Hfetch. cbn [crawlFunctions]. unfold bind at 1 2.
  unfold client_GetFunctions, on_client. rewrite Hfetch. cbn.
  by destruct (crawlFunctions rest _ _) as [[b c'] out].
Qed.

Lemma crawlFunctions_app pre post builder c :
  crawlFunctions (pre ++ post) builder c
  = bind (crawlFunctions pre builder) (crawlFunctions post) c.
Proof.
  revert builder c. induction pre as [|ns pre IH]; intros builder c.
  - cbn [app crawlFunctions]. unfold bind, ret.
    by destruct (crawlFunctions post builder c) as [[b c'] out].
  - cbn [app]. destruct (GetFunctions ns (client c)) as [[found [e|]] w] eqn:Hfetch.
    + rewrite (crawlFunctions_fetch_failed _ _ _ _ _ _ _ Hfetch), IH.
      unfold bind at 1 2.
      rewrite (crawlFunctions_fetch_failed _ _ _ _ _ _ _ Hfetch).
      destruct (crawlFunctions pre _ _) as [[b1 c1] out1].
      by destruct (crawlFunctions post _ _) as [[b2 c2] out2].
    + rewrite (crawlFunctions_fetched _ _ _ _ _ _ Hfetch), IH.
      unfold bind at 1 2.
      rewrite (crawlFunctions_fetched _ _ _ _ _ _ Hfetch).
      destruct (crawlFunctions pre _ _) as [[b1 c1] out1].
      by destruct (crawlFunctions post _ _) as [[b2 c2] out2].
Qed.

(** The crawl leaves the cache alone and asks for the functions of each
    namespace once, in the order of the list. *)
Lemma crawlFunctions_calls namespaces builder c :
  cache (crawlFunctions namespaces builder c).1.2 = cache c
  ∧ fetched (crawlFunctions namespaces builder c).2 = namespaces
  ∧ listed_namespaces (crawlFunctions namespaces builder c).2 = false
  ∧ invocations (crawlFunctions namespaces builder c).2 = [].
Proof.
  revert builder c. induction namespaces as [|ns rest IH]; intros builder c; [done|].
  destruct (GetFunctions ns (client c)) as [[found [e|]] w] eqn:Hfetch.
  - rewrite (crawlFunctions_fetch_failed _ _ _ _ _ _ _ Hfetch).
    specialize (IH builder (mkController w (cache c))).
    destruct (crawlFunctions rest _ _) as [[b c'] out]. cbn in *.
    destruct IH as (-> & -> & -> & ->). done.
  - rewrite (crawlFunctions_fetched _ _ _ _ _ _ Hfetch).
    specialize (IH (crawlFunctions_found ns found builder) (mkController w (cache c))).
    destruct (crawlFunctions rest _ _) as [[b c'] out]. cbn in *.
    destruct IH as (-> & -> & -> & ->). done.
Qed.

Lemma crawlFunctions_builder namespaces builder c :
  (crawlFunctions namespaces builder c).1.1
  = foldl (λ b pair, Append pair.1 pair.2 b) builder
      (associations (discovered namespaces (client c))).
Proof.
  revert builder c. induction namespaces as [|ns rest IH]; intros builder c; [done|].
  cbn [discovered].
  destruct (GetFunctions ns (client c)) as [[found [e|]] w] eqn:Hfetch.
  - rewrite (crawlFunctions_fetch_failed _ _ _ _ _ _ _ Hfetch).
    specialize (IH builder (mkController w (cache c))).
    by destruct (crawlFunctions rest _ _) as [[b c'] out].
  - rewrite (crawlFunctions_fetched _ _ _ _ _ _ Hfetch).
    specialize (IH (crawlFunctions_found ns found builder) (mkController w (cache c))).
    destruct (crawlFunctions rest _ _) as [[b c'] out]. cbn in *. rewrite IH.
    rewrite crawlFunctions_found_foldl. unfold associations.
    by rewrite flat_map_app, foldl_app.
Qed.

(** C2. The builder a crawl returns is the given one after appending, in
    the order of discovery, each topic of each discovered function with
    that function's identifier; the identifier of a function found in a
    namespace with a non-empty name is name.namespace, and in the
    pseudo-namespace (the empty name) the name alone. *)
Theorem crawlFunctions_appends_identifiers namespaces builder c :
  (crawlFunctions namespaces builder c).1.1
  = foldl (λ b pair, Append pair.1 pair.2 b) builder
      (flat_map (λ entry, map (λ topic, (topic, identifier entry.1 (Name entry.2)))
                              (extractTopicsFromAnnotations entry.2))
                (discovered namespaces (client c)))
  ∧ (∀ name, identifier "" name = name)
  ∧ (∀ ns name, ns ≠ "" → identifier ns name = name +:+ "." +:+ ns).
Proof.
  split; [apply crawlFunctions_builder|]. unfold identifier. split.
  - done.
  - intros ns name Hns. by destruct (decide (ns = "")).
Qed.

(** C7. In a crawl over the namespaces [pre], then [ns], then [post]: if
    fetching the functions of [ns] fails, whatever came back with the
    error is dropped, nothing is appended for [ns], and the crawl goes on
    with [post], from the builder the crawl of [pre] left. *)
Theorem crawlFunctions_skips_failed_namespace pre ns post builder c
    b1 c1 out1 found e w b2 c2 out2 :
  crawlFunctions pre builder c = (b1, c1, out1) →
  GetFunctions ns (client c1) = (found, Some e, w) →
  crawlFunctions post b1 (mkController w (cache c1)) = (b2, c2, out2) →
  crawlFunctions (pre ++ ns :: post) builder c
  = (b2, c2,
     out1 ++ [CallGetFunctions ns; Log (FetchingFunctionsFailed e ns)] ++ out2)
  ∧ fetched (crawlFunctions (pre ++ ns :: post) builder c).2 = pre ++ ns :: post.
Proof.
  intros Hpre Hfetch Hpost. split; [|apply crawlFunctions_calls].
  rewrite crawlFunctions_app. apply (bind_run _ _ _ _ _ _ _ _ _ Hpre).
  rewrite (crawlFunctions_fetch_failed _ _ _ _ _ _ _ Hfetch). by rewrite Hpost.
Qed.

(** C10. A function whose topic annotation is the empty string has one
    topic, the empty string, and the crawl appends the function to the
    builder under that topic. *)
Theorem empty_annotation_is_the_empty_topic fn annotations :
  Annotations fn = Some annotations →
  annotations !! "topic" = Some "" →
  extractTopicsFromAnnotations fn = [""]
  ∧ (∀ ns builder,
       crawlFunctions_found ns [fn] builder
       = Append "" (identifier ns (Name fn)) builder)
  ∧ (∀ ns c w builder,
       GetFunctions ns (client c) = ([fn], None, w) →
       crawlFunctions [ns] builder c
       = (Append "" (identifier ns (Name fn)) builder,
          mkController w (cache c), [CallGetFunctions ns])).
Proof.
  intros Ha Ht.
  pose proof (extractTopics_annotated _ _ _ Ha Ht) as Htopics. cbn in Htopics.
  assert (∀ ns builder, crawlFunctions_found ns [fn] builder
                        = Append "" (identifier ns (Name fn)) builder) as Hfound.
  { intros ns builder. rewrite crawlFunctions_found_foldl. unfold associations.
    cbn. by rewrite Htopics. }
  split_and!; [done|done|].
  intros ns c w builder Hfetch.
  rewrite (crawlFunctions_fetched _ _ _ _ _ _ Hfetch). by rewrite Hfound.
Qed.

(** ** One crawl cycle *)

Lemma refreshTick_crawl namespaces c b c' out :
  crawlFunctions namespaces NewFunctionMapBuilder c = (b, c', out) →
  (println CrawlingFunctions;;
   builder ← crawlFunctions namespaces NewFunctionMapBuilder;
   println CrawlingFinished;;
   cache_Refresh (Build builder)) c
  = (tt, mkController (client c') (Refresh (Build b) (cache c)),
     Log CrawlingFunctions :: out ++ [Log CrawlingFinished]).
Proof.
  intros Hcrawl.
  pose proof (crawlFunctions_calls namespaces NewFunctionMapBuilder c) as (Hcache & _).
  rewrite Hcrawl in Hcache. cbn in Hcache.
  unfold bind, println, cache_Refresh. rewrite Hcrawl. cbn.
  by rewrite Hcache.
Qed.

Lemma refreshTick_unsupported c b c' out :
  crawlFunctions [""] NewFunctionMapBuilder c = (b, c', out) →
  refreshTick false c
  = (tt, mkController (client c') (Refresh (Build b) (cache c)),
     Log CrawlingFunctions :: out ++ [Log CrawlingFinished]).
Proof.
  intros Hcrawl. unfold refreshTick. unfold bind at 1. unfold ret at 1.
  rewrite (refreshTick_crawl _ _ _ _ _ Hcrawl). reflexivity.
Qed.

Lemma refreshTick_listed c namespaces w b c' out :
  GetNamespaces (client c) = (namespaces, None, w) →
  crawlFunctions namespaces NewFunctionMapBuilder (mkController w (cache c)) = (b, c', out) →
  refreshTick true c
  = (tt, mkController (client c') (Refresh (Build b) (cache c)),
     [Log CrawlingNamespaces; CallGetNamespaces; Log CrawlingFunctions]
     ++ out ++ [Log CrawlingFinished]).
Proof.
  intros Hlist Hcrawl. unfold refreshTick. unfold bind at 1 2 3.
  unfold println at 1. unfold client_GetNamespaces, on_client. rewrite Hlist.
  unfold ret at 1. rewrite (refreshTick_crawl _ _ _ _ _ Hcrawl). reflexivity.
Qed.

(** C6. With namespace support, when listing the namespaces fails the
    cycle logs the error, crawls no namespace (whatever list came back with
    the error), and still refreshes the cache: with the snapshot of a
    builder nothing was appended to. *)
Theorem refreshTick_listing_failed c namespaces e w :
  GetNamespaces (client c) = (namespaces, Some e, w) →
  refreshTick true c
  = (tt, mkController w (Refresh (Build NewFunctionMapBuilder) (cache c)),
     [Log CrawlingNamespaces; CallGetNamespaces; Log (FetchingNamespacesFailed e);
      Log CrawlingFunctions; Log CrawlingFinished])
  ∧ fetched (refreshTick true c).2 = [].
Proof.
  intros Hlist.
  assert (refreshTick true c
          = (tt, mkController w (Refresh (Build NewFunctionMapBuilder) (cache c)),
             [Log CrawlingNamespaces; CallGetNamespaces; Log (FetchingNamespacesFailed e);
              Log CrawlingFunctions; Log CrawlingFinished])) as ->; [|done].
  unfold refreshTick. unfold bind at 1 2 3 4.
  unfold println at 1 2. unfold client_GetNamespaces, on_client. rewrite Hlist.
  unfold ret at 1.
  by rewrite (refreshTick_crawl [] (mkController w (cache c))
                NewFunctionMapBuilder (mkController w (cache c)) []).
Qed.

(** ** The refresh loop *)

Lemma refreshTick_unsupported_calls c :
  fetched (refreshTick false c).2 = [""]
  ∧ listed_namespaces (refreshTick false c).2 = false.
Proof.
  pose proof (crawlFunctions_calls [""] NewFunctionMapBuilder c) as (_ & Hf & Hl & _).
  destruct (crawlFunctions [""] NewFunctionMapBuilder c) as [[b c'] out] eqn:Hcrawl.
  rewrite (refreshTick_unsupported _ _ _ _ Hcrawl). cbn in *.
  unfold fetched, listed_namespaces in *.
  by rewrite omap_app, existsb_app, Hf, Hl.
Qed.

Lemma refresh_unsupported_calls taken c :
  fetched (refresh taken false c).2 = replicate (cycles taken) ""
  ∧ listed_namespaces (refresh taken false c).2 = false.
Proof.
  revert c. induction taken as [|[] rest IH]; intros c; [done| |done].
  cbn [refresh cycles replicate]. unfold bind.
  pose proof (refreshTick_unsupported_calls c) as [Hf Hl].
  destruct (refreshTick false c) as [[[] c1] out1].
  specialize (IH c1). destruct (refresh rest false c1) as [[[] c2] out2].
  cbn in *. unfold fetched, listed_namespaces in *.
  destruct IH as [IHf IHl].
  by rewrite omap_app, existsb_app, Hf, Hl, IHf, IHl.
Qed.

(** [Start] with a controller configuration whose period is positive: the
    namespace check, the initial cycle, the refresh loop. *)
Lemma Start_with_period conf taken c support err w :
  HasNamespaceSupport (client c) = (support, err, w) →
  (0 < TopicRefreshTime conf)%Z →
  Start (Some conf) taken c
  = let '(_, c1, out1) := refreshTick support (mkController w (cache c)) in
    let '(_, c2, out2) := refresh taken support c1 in
    (Returned, c2, CallHasNamespaceSupport :: out1 ++ out2).
Proof.
  intros Hcheck Hperiod. unfold Start. unfold bind at 1.
  unfold client_HasNamespaceSupport, on_client. rewrite Hcheck.
  rewrite bool_decide_eq_true_2 by done. unfold bind, ret.
  destruct (refreshTick support _) as [[[] c1] out1].
  destruct (refresh taken support c1) as [[[] c2] out2].
  cbn. by rewrite app_nil_r.
Qed.

(** X11. When the namespace check answers false, with or without an error,
    and the period of the timer is positive, [Start] returns, and the
    initial crawl and every crawl of the refresh loop fetch the functions of
    the pseudo-namespace (the empty name) only; the namespaces are never
    listed. *)
Theorem Start_unsupported_crawls_pseudo_namespace conf taken c err w :
  HasNamespaceSupport (client c) = (false, err, w) →
  (0 < TopicRefreshTime conf)%Z →
  (Start (Some conf) taken c).1.1 = Returned
  ∧ fetched (Start (Some conf) taken c).2 = replicate (S (cycles taken)) ""
  ∧ listed_namespaces (Start (Some conf) taken c).2 = false.
Proof.
  intros Hcheck Hperiod. rewrite (Start_with_period _ _ _ _ _ _ Hcheck Hperiod).
  set (c0 := mkController w (cache c)).
  pose proof (refreshTick_unsupported_calls c0) as [Hf Hl].
  destruct (refreshTick false c0) as [[[] c1] out1].
  pose proof (refresh_unsupported_calls taken c1) as [Hf' Hl'].
  destruct (refresh taken false c1) as [[[] c2] out2].
  cbn in *. unfold fetched, listed_namespaces in *.
  by rewrite omap_app, existsb_app, Hf, Hl, Hf', Hl'.
Qed.

End CacherFacts.

(** ** Snapshots of the builder and lookups in the cache *)

Lemma listed_under_app topic pairs1 pairs2 :
  listed_under topic (pairs1 ++ pairs2)
  = listed_under topic pairs1 ++ listed_under topic pairs2.
Proof. apply omap_app. Qed.

(** What the builder lists under a topic: what it listed before, then the
    identifiers appended under that topic, in the order of the appends. *)
Lemma FunctionMapBuilder_listed pairs (target : FunctionMapBuilder) topic :
  default [] (Build (foldl (λ b pair, Append pair.1 pair.2 b) target pairs) !! topic)
  = default [] (target !! topic) ++ listed_under topic pairs.
Proof.
  unfold FunctionMapBuilder in *.
  revert target. induction pairs as [|[t f] rest IH]; intros target.
  - cbn. by rewrite app_nil_r.
  - cbn [foldl]. rewrite IH. cbn [fst snd Append FunctionMapBuilder_TopicMapBuilder].
    unfold listed_under at 2. cbn [omap list_omap fst snd].
    unfold FunctionMapBuilder in *.
    destruct (decide (t = topic)) as [->|Hne].
    + rewrite lookup_insert_eq. cbn. by rewrite <- app_assoc.
    + by rewrite lookup_insert_ne.
Qed.

Section SnapshotFacts.
Context {error Invocation Response W : Type}.
Context `{!FunctionCrawler error Invocation Response W}.

Implicit Types (c : Controller W TopicFunctionCache).

(** After a cycle with namespace support the cache lists, under every
    topic, the identifiers of the functions discovered with that topic, in
    the order of discovery. *)
Lemma refreshTick_cache c namespaces w topic :
  GetNamespaces (client c) = (namespaces, None, w) →
  fetched (refreshTick (B := FunctionMapBuilder) true c).2 = namespaces
  ∧ GetCachedValues topic (cache (refreshTick (B := FunctionMapBuilder) true c).1.2)
    = listed_under topic (associations (discovered namespaces w)).
Proof.
  intros Hlist. set (c0 := mkController w (cache c)).
  pose proof (crawlFunctions_calls namespaces (NewFunctionMapBuilder (B := FunctionMapBuilder)) c0)
    as (_ & Hf & _).
  pose proof (crawlFunctions_builder namespaces (NewFunctionMapBuilder (B := FunctionMapBuilder)) c0)
    as Hb.
  destruct (crawlFunctions namespaces NewFunctionMapBuilder c0) as [[b c'] out] eqn:Hcrawl.
  rewrite (refreshTick_listed _ _ _ _ _ _ Hlist Hcrawl).
  cbn [fst snd cache] in *. split.
  - unfold fetched in *. cbn [app omap list_omap].
    rewrite omap_app, Hf. cbn. apply app_nil_r.
  - cbn [GetCachedValues Refresh TopicFunctionCache_TopicMap].
    rewrite Hb. by rewrite FunctionMapBuilder_listed.
Qed.

(** C3. A cycle fetches the functions of the namespaces in the order the
    crawler listed them, and the cache then lists under every topic the
    identifiers of its functions in the order of discovery. With the
    namespaces prod and dev, a function billing in each, subscribed to
    order.created in prod and to order.created and order.updated in dev,
    the cache lists billing.prod then billing.dev under order.created,
    billing.dev under order.updated, and nothing under any other topic. *)
Theorem refreshTick_discovery_order c namespaces w :
  GetNamespaces (client c) = (namespaces, None, w) →
  fetched (refreshTick (B := FunctionMapBuilder) true c).2 = namespaces
  ∧ (∀ topic,
       GetCachedValues topic (cache (refreshTick (B := FunctionMapBuilder) true c).1.2)
       = listed_under topic (associations (discovered namespaces w)))
  ∧ (∀ prod dev w1 w2,
       namespaces = ["prod"; "dev"] →
       GetFunctions "prod" w = ([mkFunctionStatus "billing" (Some prod)], None, w1) →
       prod !! "topic" = Some "order.created" →
       GetFunctions "dev" w1 = ([mkFunctionStatus "billing" (Some dev)], None, w2) →
       dev !! "topic" = Some "order.created,order.updated" →
       let published := cache (refreshTick (B := FunctionMapBuilder) true c).1.2 in
       GetCachedValues "order.created" published = ["billing.prod"; "billing.dev"]
       ∧ GetCachedValues "order.updated" published = ["billing.dev"]
       ∧ (∀ topic, topic ≠ "order.created" → topic ≠ "order.updated" →
            GetCachedValues topic published = [])).
Proof.
  intros Hlist. split_and!.
  - by apply (refreshTick_cache c namespaces w "").
  - intros topic. by apply refreshTick_cache.
  - intros prod dev w1 w2 -> Hprod Hp Hdev Hd published.
    assert (associations (discovered ["prod"; "dev"] w)
            = [("order.created", "billing.prod"); ("order.created", "billing.dev");
               ("order.updated", "billing.dev")]) as Hassoc.
    { cbn [discovered]. rewrite Hprod, Hdev. unfold associations.
      cbn [map app flat_map fst snd Name].
      rewrite (extractTopics_annotated (mkFunctionStatus "billing" (Some prod)) prod _ eq_refl Hp).
      rewrite (extractTopics_annotated (mkFunctionStatus "billing" (Some dev)) dev _ eq_refl Hd).
      reflexivity. }
    unfold published. split_and!.
    + rewrite (proj2 (refreshTick_cache c _ w _ Hlist)), Hassoc. reflexivity.
    + rewrite (proj2 (refreshTick_cache c _ w _ Hlist)), Hassoc. reflexivity.
    + intros topic Hc Hu.
      rewrite (proj2 (refreshTick_cache c _ w _ Hlist)), Hassoc.
      unfold listed_under. cbn.
      repeat (destruct (decide _) as [?|?]; [congruence|]). done.
Qed.

(** C4. With a topic annotation the topics are the pieces of its value
    between the commas, none of them containing a comma and one more than
    the value has commas; without the annotation, or without annotations,
    there is no topic. A function annotated a,b,c that a crawl finds is
    listed by the snapshot under a, under b and under c, with its
    identifier, and under nothing else. *)
Theorem extractTopics_comma_separated fn :
  (∀ annotations topicNames,
     Annotations fn = Some annotations →
     annotations !! "topic" = Some topicNames →
     extractTopicsFromAnnotations fn = Split topicNames ","
     ∧ Join (extractTopicsFromAnnotations fn) "," = topicNames
     ∧ Forall (λ topic, occurs "," topic = false) (extractTopicsFromAnnotations fn)
     ∧ length (extractTopicsFromAnnotations fn) = S (Count topicNames ","))
  ∧ (Annotations fn = None → extractTopicsFromAnnotations fn = [])
  ∧ (∀ annotations,
       Annotations fn = Some annotations →
       annotations !! "topic" = None →
       extractTopicsFromAnnotations fn = [])
  ∧ (∀ annotations ns c w,
       Annotations fn = Some annotations →
       annotations !! "topic" = Some "a,b,c" →
       GetFunctions ns (client c) = ([fn], None, w) →
       extractTopicsFromAnnotations fn = ["a"; "b"; "c"]
       ∧ Build (crawlFunctions [ns] (NewFunctionMapBuilder (B := FunctionMapBuilder)) c).1.1
         = {[ "a" := [identifier ns (Name fn)];
              "b" := [identifier ns (Name fn)];
              "c" := [identifier ns (Name fn)] ]}).
Proof.
  split_and!.
  - intros annotations topicNames Ha Ht.
    rewrite (extractTopics_annotated _ _ _ Ha Ht).
    split_and!; [done|apply Join_Split|apply Split_pieces_free|apply Split_length].
  - intros Ha. unfold extractTopicsFromAnnotations. by rewrite Ha.
  - intros annotations Ha Ht. unfold extractTopicsFromAnnotations. by rewrite Ha, Ht.
  - intros annotations ns c w Ha Ht Hfetch.
    pose proof (extractTopics_annotated _ _ _ Ha Ht) as Htopics. cbn in Htopics.
    split; [done|].
    rewrite (crawlFunctions_fetched _ _ _ _ _ _ Hfetch). cbn.
    rewrite Htopics. cbn. rewrite nonempty_namespace.
    assert ((if bool_decide (ns ≠ "") then Sprintf_dot (Name fn) ns else Name fn)
            = identifier ns (Name fn)) as Hid.
    { unfold identifier, Sprintf_dot. destruct (decide (ns = "")) as [->|Hns]; [done|].
      by rewrite bool_decide_eq_true_2. }
    destruct (bool_decide (ns ≠ "")); rewrite <- Hid;
      generalize (Name fn); intros name; generalize (Sprintf_dot name ns); intros;
      apply map_eq; intros k; vm_compute; reflexivity.
Qed.

End SnapshotFacts.

(** ** The statements on the scripted gateways *)

(** On [shop] with three listeners, the second invocation fails: the first
    two functions are invoked, the third is not, and the error comes back.
    On a gateway where no invocation fails all three are invoked. *)
Lemma Invoke_second_of_three_fails :
  Invoke "order.created" "payload" (mkController shop three_listeners)
  = (Some "invocation failed",
     mkController (gw_receive "mail.dev" (gw_receive "billing.prod" shop)) three_listeners,
     [CallInvokeAsync "billing.prod" "payload"; CallInvokeAsync "mail.dev" "payload";
      Log (InvocationFailed "order.created" "invocation failed")])
  ∧ invocations (Invoke "order.created" "payload" (mkController shop three_listeners)).2
    = ["billing.prod"; "mail.dev"]
  ∧ invocations (Invoke "order.created" "payload"
                   (mkController (single (subscriber "f" "t")) three_listeners)).2
    = ["billing.prod"; "mail.dev"; "audit.dev"].
Proof.
  split_and!.
  - refine (proj1 (proj1 (proj2 (Invoke_sequential_until_first_failure "order.created"
                                   "payload" (mkController shop three_listeners)))
                     ["billing.prod"] "mail.dev" ["audit.dev"]
                     (gw_receive "billing.prod" shop) false "invocation failed"
                     (gw_receive "mail.dev" (gw_receive "billing.prod" shop)) _ _ _)).
    + vm_compute; reflexivity.
    + econstructor; [vm_compute; reflexivity|constructor].
    + vm_compute; reflexivity.
  - refine (proj2 (proj1 (proj2 (Invoke_sequential_until_first_failure "order.created"
                                   "payload" (mkController shop three_listeners)))
                     ["billing.prod"] "mail.dev" ["audit.dev"]
                     (gw_receive "billing.prod" shop) false "invocation failed"
                     (gw_receive "mail.dev" (gw_receive "billing.prod" shop)) _ _ _)).
    + vm_compute; reflexivity.
    + econstructor; [vm_compute; reflexivity|constructor].
    + vm_compute; reflexivity.
  - pose (g := single (subscriber "f" "t")).
    rewrite (proj1 (Invoke_sequential_until_first_failure "order.created" "payload"
                      (mkController g three_listeners))
               (gw_receive "audit.dev" (gw_receive "mail.dev" (gw_receive "billing.prod" g)))).
    + vm_compute; reflexivity.
    + repeat (econstructor; [vm_compute; reflexivity|]). constructor.
Defined.

(** On [shop], [Invoke] fails for the topic order.created and for the topic
    order.updated, and its caller gets the same error back for both: no
    reading of what [Invoke] returns tells which topic failed. *)
Lemma Invoke_error_does_not_name_the_topic :
  (Invoke "order.created" "payload" (mkController shop two_topics)).1.1
  = Some "invocation failed"
  ∧ (Invoke "order.updated" "payload" (mkController shop two_topics)).1.1
    = Some "invocation failed"
  ∧ ¬ (∃ topic_of : option string → string,
         topic_of (Invoke "order.created" "payload" (mkController shop two_topics)).1.1
         = "order.created"
         ∧ topic_of (Invoke "order.updated" "payload" (mkController shop two_topics)).1.1
           = "order.updated").
Proof.
  assert ((Invoke "order.created" "payload" (mkController shop two_topics)).1.1
          = Some "invocation failed") as Hcreated by (vm_compute; reflexivity).
  assert ((Invoke "order.updated" "payload" (mkController shop two_topics)).1.1
          = Some "invocation failed") as Hupdated by (vm_compute; reflexivity).
  split_and!; [done|done|].
  intros (topic_of & Hc & Hu). rewrite Hcreated in Hc. rewrite Hupdated in Hu.
  rewrite Hc in Hu. discriminate.
Qed.

(** On [shop], nobody listens on the topic unknown. *)
Lemma Invoke_unknown_topic :
  Invoke "unknown" "payload" (mkController shop three_listeners)
  = (None, mkController shop three_listeners, [Log (InvocationFinished "unknown" 0)])
  ∧ invocations (Invoke "unknown" "payload" (mkController shop three_listeners)).2 = [].
Proof.
  apply (Invoke_without_functions "unknown" "payload" (mkController shop three_listeners)).
  vm_compute; reflexivity.
Defined.

(** One crawl of [shop] over prod and dev appends three associations, with
    the identifiers qualified by the namespace. *)
Lemma crawl_shop_appends :
  (crawlFunctions ["prod"; "dev"] (NewFunctionMapBuilder (B := FunctionMapBuilder))
     (mkController shop three_listeners)).1.1
  = foldl (λ b pair, Append pair.1 pair.2 b) (NewFunctionMapBuilder (B := FunctionMapBuilder))
      [("order.created", "billing.prod"); ("order.created", "billing.dev");
       ("order.updated", "billing.dev")]
  ∧ identifier "" "billing" = "billing"
  ∧ identifier "prod" "billing" = "billing.prod".
Proof.
  pose proof (crawlFunctions_appends_identifiers ["prod"; "dev"]
                (NewFunctionMapBuilder (B := FunctionMapBuilder))
                (mkController shop three_listeners)) as (Hb & Hpseudo & Hreal).
  split_and!.
  - exact Hb.
  - apply Hpseudo.
  - apply Hreal. discriminate.
Defined.

(** One cycle on [shop] publishes the snapshot of the spec's scenario. *)
Lemma refreshTick_shop :
  fetched (refreshTick (B := FunctionMapBuilder) true (mkController shop three_listeners)).2
  = ["prod"; "dev"]
  ∧ GetCachedValues "order.created"
      (cache (refreshTick (B := FunctionMapBuilder) true (mkController shop three_listeners)).1.2)
    = ["billing.prod"; "billing.dev"]
  ∧ GetCachedValues "order.updated"
      (cache (refreshTick (B := FunctionMapBuilder) true (mkController shop three_listeners)).1.2)
    = ["billing.dev"]
  ∧ GetCachedValues "unknown"
      (cache (refreshTick (B := FunctionMapBuilder) true (mkController shop three_listeners)).1.2)
    = [].
Proof.
  pose proof (refreshTick_discovery_order (mkController shop three_listeners)
                ["prod"; "dev"] shop eq_refl) as (Hfetched & _ & Hscenario).
  specialize (Hscenario {[ "topic" := "order.created" ]}
                {[ "topic" := "order.created,order.updated" ]} shop shop
                eq_refl eq_refl eq_refl eq_refl eq_refl).
  destruct Hscenario as (Hcreated & Hupdated & Hother).
  split_and!; [exact Hfetched|exact Hcreated|exact Hupdated|].
  apply Hother; discriminate.
Defined.

(** The topics of a function annotated a,b,c, of one without the topic
    annotation and of one without annotations, and the snapshot of a crawl
    that finds the first. *)
Lemma extractTopics_examples :
  extractTopicsFromAnnotations (subscriber "resize" "a,b,c") = ["a"; "b"; "c"]
  ∧ extractTopicsFromAnnotations (mkFunctionStatus "idle" None) = []
  ∧ extractTopicsFromAnnotations (mkFunctionStatus "plain" (Some {[ "scale" := "1" ]})) = []
  ∧ Build (crawlFunctions [""] (NewFunctionMapBuilder (B := FunctionMapBuilder))
             (mkController (single (subscriber "resize" "a,b,c")) three_listeners)).1.1
    = {[ "a" := ["resize"]; "b" := ["resize"]; "c" := ["resize"] ]}.
Proof.
  split_and!.
  - pose proof (extractTopics_comma_separated (error := string) (Invocation := string)
                  (subscriber "resize" "a,b,c")) as (Hpresent & _).
    exact (proj1 (Hpresent {[ "topic" := "a,b,c" ]} "a,b,c" eq_refl eq_refl)).
  - pose proof (extractTopics_comma_separated (error := string) (Invocation := string)
                  (mkFunctionStatus "idle" None)) as (_ & Hnil & _).
    exact (Hnil eq_refl).
  - pose proof (extractTopics_comma_separated (error := string) (Invocation := string)
                  (mkFunctionStatus "plain" (Some {[ "scale" := "1" ]}))) as (_ & _ & Habsent & _).
    exact (Habsent {[ "scale" := "1" ]} eq_refl eq_refl).
  - pose proof (extractTopics_comma_separated (subscriber "resize" "a,b,c")) as (_ & _ & _ & Hcrawl).
    exact (proj2 (Hcrawl {[ "topic" := "a,b,c" ]} ""
                    (mkController (single (subscriber "resize" "a,b,c")) three_listeners)
                    (single (subscriber "resize" "a,b,c")) eq_refl eq_refl eq_refl)).
Defined.

(** C5. The namespace check of [shop_flaky] fails, with [true] next to
    the error. [Start] drops the error and goes by the [true]: it lists the
    namespaces, crawls prod and dev and publishes identifiers qualified by
    the namespace, where the claim has it treat the failed check as no
    support and crawl the pseudo-namespace only. *)
Lemma Start_failed_check_reporting_support :
  HasNamespaceSupport shop_flaky = (true, Some "gateway timeout", shop_flaky)
  ∧ (Start (B := FunctionMapBuilder) (Some every_minute) []
       (mkController shop_flaky three_listeners)).1.1 = Returned
  ∧ listed_namespaces
      (Start (B := FunctionMapBuilder) (Some every_minute) []
         (mkController shop_flaky three_listeners)).2 = true
  ∧ fetched (Start (B := FunctionMapBuilder) (Some every_minute) []
               (mkController shop_flaky three_listeners)).2
    = ["prod"; "dev"]
  ∧ cache (Start (B := FunctionMapBuilder) (Some every_minute) []
             (mkController shop_flaky three_listeners)).1.2
    = shop_snapshot
  ∧ ¬ (fetched (Start (B := FunctionMapBuilder) (Some every_minute) []
                  (mkController shop_flaky three_listeners)).2
       = replicate (S (cycles [])) ""
       ∧ listed_namespaces
           (Start (B := FunctionMapBuilder) (Some every_minute) []
              (mkController shop_flaky three_listeners)).2
         = false).
Proof.
  split_and!; [reflexivity|vm_compute; reflexivity..|].
  intros [Hfetched _]. vm_compute in Hfetched. discriminate.
Qed.

(** The namespace check of [shop_unreachable] fails and answers [false]:
    the initial crawl and the two crawls before the loop is left fetch the
    pseudo-namespace. *)
Lemma Start_unreachable_gateway :
  (Start (B := FunctionMapBuilder) (Some every_minute) [Tick; Tick; Done; Tick]
     (mkController shop_unreachable three_listeners)).1.1 = Returned
  ∧ fetched (Start (B := FunctionMapBuilder) (Some every_minute) [Tick; Tick; Done; Tick]
               (mkController shop_unreachable three_listeners)).2 = [""; ""; ""]
  ∧ listed_namespaces (Start (B := FunctionMapBuilder) (Some every_minute)
                         [Tick; Tick; Done; Tick]
                         (mkController shop_unreachable three_listeners)).2 = false.
Proof.
  refine (Start_unsupported_crawls_pseudo_namespace (B := FunctionMapBuilder)
            every_minute [Tick; Tick; Done; Tick]
            (mkController shop_unreachable three_listeners)
            (Some "gateway unreachable") shop_unreachable eq_refl _).
  reflexivity.
Defined.

(** When [shop_unreachable] cannot list its namespaces, a cycle with
    namespace support replaces the three listeners in the cache by the empty
    snapshot. *)
Lemma refreshTick_unreachable_gateway :
  refreshTick (B := FunctionMapBuilder) true (mkController shop_unreachable three_listeners)
  = (tt, mkController shop_unreachable (∅ : TopicFunctionCache),
     [Log CrawlingNamespaces; CallGetNamespaces;
      Log (FetchingNamespacesFailed "gateway unreachable");
      Log CrawlingFunctions; Log CrawlingFinished])
  ∧ fetched (refreshTick (B := FunctionMapBuilder) true
               (mkController shop_unreachable three_listeners)).2 = [].
Proof.
  exact (refreshTick_listing_failed (B := FunctionMapBuilder)
           (mkController shop_unreachable three_listeners) []
           "gateway unreachable" shop_unreachable eq_refl).
Defined.

(** [shop] has no namespace staging: a crawl over prod, staging and dev
    logs the failure and lists the functions of prod and of dev. *)
Lemma crawl_shop_without_staging :
  crawlFunctions (["prod"] ++ "staging" :: ["dev"])
    (NewFunctionMapBuilder (B := FunctionMapBuilder)) (mkController shop three_listeners)
  = (shop_snapshot, mkController shop three_listeners,
     [CallGetFunctions "prod"] ++
     [CallGetFunctions "staging"; Log (FetchingFunctionsFailed "namespace not found" "staging")]
     ++ [CallGetFunctions "dev"])
  ∧ fetched (crawlFunctions (["prod"] ++ "staging" :: ["dev"])
               (NewFunctionMapBuilder (B := FunctionMapBuilder))
               (mkController shop three_listeners)).2
    = ["prod"] ++ "staging" :: ["dev"].
Proof.
  apply (crawlFunctions_skips_failed_namespace ["prod"] "staging" ["dev"]
           (NewFunctionMapBuilder (B := FunctionMapBuilder)) (mkController shop three_listeners)
           ({[ "order.created" := ["billing.prod"] ]} : FunctionMapBuilder)
           (mkController shop three_listeners) [CallGetFunctions "prod"]
           [] "namespace not found" shop).
  - vm_compute; reflexivity.
  - vm_compute; reflexivity.
  - vm_compute; reflexivity.
Defined.

(** The annotation a-comma-space-b. *)
Lemma extractTopics_space_after_comma :
  extractTopicsFromAnnotations (subscriber "audit" "a, b") = ["a"; " b"]
  ∧ Join (extractTopicsFromAnnotations (subscriber "audit" "a, b")) "," = "a, b".
Proof.
  pose proof (extractTopics_keeps_whitespace (subscriber "audit" "a, b")
                {[ "topic" := "a, b" ]} eq_refl) as [Hexample Hjoin].
  split; [exact (Hexample eq_refl)|exact (Hjoin "a, b" eq_refl)].
Defined.

(** A function annotated with the empty string, found in the
    pseudo-namespace, is listed under the empty topic. *)
Lemma crawl_empty_annotation :
  extractTopicsFromAnnotations (subscriber "sink" "") = [""]
  ∧ crawlFunctions [""] (NewFunctionMapBuilder (B := FunctionMapBuilder))
      (mkController (single (subscriber "sink" "")) three_listeners)
    = ({[ "" := ["sink"] ]}, mkController (single (subscriber "sink" "")) three_listeners,
       [CallGetFunctions ""]).
Proof.
  pose proof (empty_annotation_is_the_empty_topic (W := Gateway) (B := FunctionMapBuilder)
                (C := TopicFunctionCache)
                (subscriber "sink" "") {[ "topic" := "" ]} eq_refl eq_refl)
    as (Htopics & _ & Hcrawl).
  split; [exact Htopics|].
  exact (Hcrawl "" (mkController (single (subscriber "sink" "")) three_listeners)
           (single (subscriber "sink" "")) NewFunctionMapBuilder eq_refl).
Defined.


(** ** Further properties: subscribing by annotation *)

Lemma Split_piece_then_sep piece rest sep :
  occurs sep piece = false →
  Split (piece +:+ String sep rest) sep = piece :: Split rest sep.
Proof.
  induction piece as [|c piece IH]; simpl; intros Hfree.
  - by rewrite Ascii.eqb_refl.
  - apply orb_false_iff in Hfree as [Hc Hfree]. by rewrite Hc, (IH Hfree).
Qed.

Lemma Split_Join pieces sep :
  pieces ≠ [] →
  Forall (λ piece, occurs sep piece = false) pieces →
  Split (Join pieces sep) sep = pieces.
Proof.
  intros Hne Hfree. induction Hfree as [|piece rest Hpiece Hrest IH]; [done|].
  destruct rest as [|next rest].
  - cbn. by apply Split_no_sep.
  - change (Join (piece :: next :: rest) sep)
      with (piece +:+ String sep (Join (next :: rest) sep)).
    rewrite (Split_piece_then_sep _ _ _ Hpiece). by rewrite IH.
Qed.

(** X7. To subscribe a function to a non-empty list of topics, none of
    which contains a comma, it is enough to annotate it with the topics
    joined by commas: the extraction gives back exactly these topics, in
    order, whatever else the topics contain. *)
Theorem extractTopics_of_joined_topics fn annotations topics :
  Annotations fn = Some annotations →
  annotations !! "topic" = Some (Join topics ",") →
  topics ≠ [] →
  Forall (λ topic, occurs "," topic = false) topics →
  extractTopicsFromAnnotations fn = topics.
Proof.
  intros Ha Ht Hne Hfree. rewrite (extractTopics_annotated _ _ _ Ha Ht).
  by apply Split_Join.
Qed.

(** ** Further properties: invocation *)

Section InvokeFacts.
Context {error Invocation Response W C : Type}.
Context `{!FunctionCrawler error Invocation Response W} `{!TopicMap C}.

Implicit Types (c : Controller W C) (invocation : Invocation).

Lemma invocations_of_calls invocation (fns : list string) :
  invocations ((λ fn, CallInvokeAsync (error := error) fn invocation) <$> fns) = fns.
Proof. induction fns as [|fn fns IH]; [done|]. unfold invocations in *. cbn. by rewrite IH. Qed.

Lemma fetched_of_calls invocation (fns : list string) :
  fetched ((λ fn, CallInvokeAsync (error := error) fn invocation) <$> fns) = [].
Proof. induction fns as [|fn fns IH]; [done|]. unfold fetched in *. cbn. by rewrite IH. Qed.

Lemma listed_of_calls invocation (fns : list string) :
  listed_namespaces ((λ fn, CallInvokeAsync (error := error) fn invocation) <$> fns) = false.
Proof. induction fns as [|fn fns IH]; [done|]. unfold listed_namespaces in *. cbn. by rewrite IH. Qed.

Lemma invocations_app (out1 out2 : list (event error Invocation)) :
  invocations (out1 ++ out2) = invocations out1 ++ invocations out2.
Proof. apply omap_app. Qed.

Lemma fetched_app (out1 out2 : list (event error Invocation)) :
  fetched (out1 ++ out2) = fetched out1 ++ fetched out2.
Proof. apply omap_app. Qed.

Lemma listed_namespaces_app (out1 out2 : list (event error Invocation)) :
  listed_namespaces (out1 ++ out2) = listed_namespaces out1 || listed_namespaces out2.
Proof. apply existsb_app. Qed.

(** The two ways [Invoke] ends. *)
Lemma Invoke_outcome topic invocation c :
  (∃ w', invoked_all invocation (client c) (GetCachedValues topic (cache c)) w'
     ∧ Invoke topic invocation c
       = (None, mkController w' (cache c),
          ((λ fn, CallInvokeAsync fn invocation) <$> GetCachedValues topic (cache c))
          ++ [Log (InvocationFinished topic (length (GetCachedValues topic (cache c))))]))
  ∨ (∃ pre fn post w1 r e w2,
       GetCachedValues topic (cache c) = pre ++ fn :: post
       ∧ invoked_all invocation (client c) pre w1
       ∧ InvokeAsync fn invocation w1 = (r, Some e, w2)
       ∧ Invoke topic invocation c
         = (Some e, mkController w2 (cache c),
            ((λ fn, CallInvokeAsync fn invocation) <$> pre)
            ++ [CallInvokeAsync fn invocation; Log (InvocationFailed topic e)])).
Proof.
  destruct c as [w ca]. cbn [client cache].
  destruct (Invoke_range_cases invocation (GetCachedValues topic ca) w)
    as [[w' Hall]|(pre & fn & post & w1 & r & e & w2 & Hfns & Hpre & Hfail)].
  - left. exists w'. split; [done|].
    unfold Invoke, bind, cache_GetCachedValues. cbn [cache].
    by rewrite (Invoke_range_all topic _ _ _ _ Hall).
  - right. exists pre, fn, post, w1, r, e, w2. split_and!; [done..|].
    unfold Invoke, bind, cache_GetCachedValues. cbn [cache]. rewrite Hfns.
    rewrite (Invoke_range_first_failure topic _ _ _ _ _ _ _ _ post Hpre Hfail).
    cbn. by rewrite app_nil_r.
Qed.

(** X1. Whatever the crawler answers, [Invoke] leaves the cache as it
    was, never lists namespaces and never fetches functions, and the
    functions it invokes are an initial part of the list cached for the
    topic, in the order of that list. *)
Theorem Invoke_frame topic invocation c :
  cache (Invoke topic invocation c).1.2 = cache c
  ∧ fetched (Invoke topic invocation c).2 = []
  ∧ listed_namespaces (Invoke topic invocation c).2 = false
  ∧ invocations (Invoke topic invocation c).2 `prefix_of` GetCachedValues topic (cache c).
Proof.
  destruct (Invoke_outcome topic invocation c)
    as [(w' & _ & ->)|(pre & fn & post & w1 & r & e & w2 & Hfns & _ & _ & ->)];
    cbn [fst snd cache];
    rewrite invocations_app, fetched_app, listed_namespaces_app,
      invocations_of_calls, fetched_of_calls, listed_of_calls; cbn.
  - split_and!; [done..|]. by rewrite app_nil_r.
  - split_and!; [done..|]. rewrite Hfns. exists post. by rewrite <- app_assoc.
Qed.

(** X2. What the result of [Invoke] tells its caller. No error: every
    function cached for the topic was invoked, in order, and none of the
    calls failed. An error: it is the error of the first call that failed,
    the functions before it were invoked successfully, and no function
    after it was invoked. *)
Theorem Invoke_result_meaning topic invocation c :
  ((Invoke topic invocation c).1.1 = None →
     invoked_all invocation (client c) (GetCachedValues topic (cache c))
       (client (Invoke topic invocation c).1.2)
     ∧ invocations (Invoke topic invocation c).2 = GetCachedValues topic (cache c))
  ∧ (∀ e, (Invoke topic invocation c).1.1 = Some e →
       ∃ pre fn post w1 r,
         GetCachedValues topic (cache c) = pre ++ fn :: post
         ∧ invoked_all invocation (client c) pre w1
         ∧ InvokeAsync fn invocation w1
           = (r, Some e, client (Invoke topic invocation c).1.2)
         ∧ invocations (Invoke topic invocation c).2 = pre ++ [fn]).
Proof.
  destruct (Invoke_outcome topic invocation c)
    as [(w' & Hall & ->)|(pre & fn & post & w1 & r & e & w2 & Hfns & Hpre & Hfail & ->)];
    cbn [fst snd client]; (split; [intros Hnone|intros e' Hsome]); try done.
  - split; [done|]. rewrite invocations_app, invocations_of_calls. cbn.
    by rewrite app_nil_r.
  - injection Hsome as <-. exists pre, fn, post, w1, r. split_and!; [done..|].
    by rewrite invocations_app, invocations_of_calls.
Qed.

End InvokeFacts.

(** ** Further properties: crawl cycles and the refresh loop *)

Lemma count_events_app {error Invocation : Type} (p : event error Invocation → bool)
    (out1 out2 : list (event error Invocation)) :
  count_events p (out1 ++ out2) = count_events p out1 + count_events p out2.
Proof. unfold count_events. by rewrite List.filter_app, length_app. Qed.

Section CycleFacts.
Context {error Invocation Response W B C : Type}.
Context `{!FunctionCrawler error Invocation Response W}.
Context `{!TopicMapBuilder B} `{!TopicMap C}.

Implicit Types (c : Controller W C) (builder : B) (invocation : Invocation).

(** A crawl makes no namespace check, lists no namespaces and ends no
    cycle. *)
Lemma crawlFunctions_quiet namespaces builder c :
  count_events is_support_check (crawlFunctions namespaces builder c).2 = 0
  ∧ count_events is_listing (crawlFunctions namespaces builder c).2 = 0
  ∧ count_events is_cycle_end (crawlFunctions namespaces builder c).2 = 0.
Proof.
  revert builder c. induction namespaces as [|ns rest IH]; intros builder c; [done|].
  destruct (GetFunctions ns (client c)) as [[found [e|]] w] eqn:Hfetch.
  - rewrite (crawlFunctions_fetch_failed _ _ _ _ _ _ _ Hfetch).
    specialize (IH builder (mkController w (cache c))).
    by destruct (crawlFunctions rest _ _) as [[b c'] out].
  - rewrite (crawlFunctions_fetched _ _ _ _ _ _ Hfetch).
    specialize (IH (crawlFunctions_found ns found builder) (mkController w (cache c))).
    by destruct (crawlFunctions rest _ _) as [[b c'] out].
Qed.

(** A crawl does not read the cache. *)
Lemma crawlFunctions_cache_irrelevant namespaces builder (w : W) (ca ca' : C) :
  (crawlFunctions namespaces builder (mkController w ca)).1.1
  = (crawlFunctions namespaces builder (mkController w ca')).1.1
  ∧ client (crawlFunctions namespaces builder (mkController w ca)).1.2
    = client (crawlFunctions namespaces builder (mkController w ca')).1.2
  ∧ (crawlFunctions namespaces builder (mkController w ca)).2
    = (crawlFunctions namespaces builder (mkController w ca')).2.
Proof.
  revert builder w. induction namespaces as [|ns rest IH]; intros builder w; [done|].
  destruct (GetFunctions ns w) as [[found [e|]] w1] eqn:Hfetch.
  - rewrite (crawlFunctions_fetch_failed ns rest builder (mkController w ca) found e w1 Hfetch).
    rewrite (crawlFunctions_fetch_failed ns rest builder (mkController w ca') found e w1 Hfetch).
    cbn [cache]. specialize (IH builder w1).
    destruct (crawlFunctions rest _ (mkController w1 ca)) as [[b1 c1] out1].
    destruct (crawlFunctions rest _ (mkController w1 ca')) as [[b2 c2] out2].
    cbn in *. destruct IH as (-> & -> & ->). done.
  - rewrite (crawlFunctions_fetched ns rest builder (mkController w ca) found w1 Hfetch).
    rewrite (crawlFunctions_fetched ns rest builder (mkController w ca') found w1 Hfetch).
    cbn [cache]. specialize (IH (crawlFunctions_found ns found builder) w1).
    destruct (crawlFunctions rest _ (mkController w1 ca)) as [[b1 c1] out1].
    destruct (crawlFunctions rest _ (mkController w1 ca')) as [[b2 c2] out2].
    cbn in *. destruct IH as (-> & -> & ->). done.
Qed.

(** A cycle is its scan, the crawl of the scanned namespaces with a new
    builder and the refresh of the cache with what was built. *)
Lemma refreshTick_outcome hasNamespaceSupport c namespaces w pre b c' out :
  scanned hasNamespaceSupport (client c) = (namespaces, w, pre) →
  crawlFunctions namespaces NewFunctionMapBuilder (mkController w (cache c)) = (b, c', out) →
  refreshTick hasNamespaceSupport c
  = (tt, mkController (client c') (Refresh (Build b) (cache c)),
     pre ++ Log CrawlingFunctions :: out ++ [Log CrawlingFinished]).
Proof.
  intros Hscan Hcrawl. destruct hasNamespaceSupport; cbn [scanned] in Hscan.
  - destruct (GetNamespaces (client c)) as [[listed [e|]] w1] eqn:Hlist;
      injection Hscan as <- <- <-.
    + cbn in Hcrawl. injection Hcrawl as <- <- <-.
      unfold refreshTick. unfold bind at 1 2 3 4.
      unfold println at 1 2. unfold client_GetNamespaces, on_client. rewrite Hlist.
      unfold ret at 1.
      by rewrite (refreshTick_crawl [] (mkController w1 (cache c))
                    NewFunctionMapBuilder (mkController w1 (cache c)) []).
    + by rewrite (refreshTick_listed _ _ _ _ _ _ Hlist Hcrawl).
  - injection Hscan as <- <- <-. destruct c as [w0 ca]. cbn [client cache] in *.
    by rewrite (refreshTick_unsupported _ _ _ _ Hcrawl).
Qed.

Lemma scanned_counts hasNamespaceSupport (w : W) :
  count_events is_support_check (scanned hasNamespaceSupport w).2 = 0
  ∧ count_events is_listing (scanned hasNamespaceSupport w).2
    = (if hasNamespaceSupport then 1 else 0)
  ∧ count_events is_cycle_end (scanned hasNamespaceSupport w).2 = 0
  ∧ invocations (scanned hasNamespaceSupport w).2 = [].
Proof.
  destruct hasNamespaceSupport; cbn [scanned]; [|done].
  by destruct (GetNamespaces w) as [[listed [e|]] w1].
Qed.

Lemma refreshTick_counts hasNamespaceSupport c :
  count_events is_support_check (refreshTick hasNamespaceSupport c).2 = 0
  ∧ count_events is_listing (refreshTick hasNamespaceSupport c).2
    = (if hasNamespaceSupport then 1 else 0)
  ∧ count_events is_cycle_end (refreshTick hasNamespaceSupport c).2 = 1
  ∧ invocations (refreshTick hasNamespaceSupport c).2 = [].
Proof.
  pose proof (scanned_counts hasNamespaceSupport (client c)) as (Hs1 & Hs2 & Hs3 & Hs4).
  destruct (scanned hasNamespaceSupport (client c)) as [[namespaces w] pre] eqn:Hscan.
  pose proof (crawlFunctions_quiet namespaces NewFunctionMapBuilder (mkController w (cache c)))
    as (Hc1 & Hc2 & Hc3).
  pose proof (crawlFunctions_calls namespaces NewFunctionMapBuilder (mkController w (cache c)))
    as (_ & _ & _ & Hc4).
  destruct (crawlFunctions namespaces NewFunctionMapBuilder (mkController w (cache c)))
    as [[b c'] out] eqn:Hcrawl.
  rewrite (refreshTick_outcome _ _ _ _ _ _ _ _ Hscan Hcrawl). cbn [snd] in *.
  change (Log CrawlingFunctions :: out ++ [Log CrawlingFinished])
    with ([Log CrawlingFunctions] ++ out ++ [Log (error := error) (Invocation := Invocation) CrawlingFinished]).
  rewrite !count_events_app, !invocations_app, Hs1, Hs2, Hs3, Hs4, Hc1, Hc2, Hc3, Hc4.
  cbn. split_and!; [done| |done..]. by destruct hasNamespaceSupport.
Qed.

Lemma refresh_counts taken hasNamespaceSupport c :
  count_events is_support_check (refresh taken hasNamespaceSupport c).2 = 0
  ∧ count_events is_listing (refresh taken hasNamespaceSupport c).2
    = (if hasNamespaceSupport then cycles taken else 0)
  ∧ count_events is_cycle_end (refresh taken hasNamespaceSupport c).2 = cycles taken
  ∧ invocations (refresh taken hasNamespaceSupport c).2 = [].
Proof.
  revert c. induction taken as [|[] rest IH]; intros c.
  - by destruct hasNamespaceSupport.
  - cbn [refresh cycles]. unfold bind.
    pose proof (refreshTick_counts hasNamespaceSupport c) as (Ht1 & Ht2 & Ht3 & Ht4).
    destruct (refreshTick hasNamespaceSupport c) as [[[] c1] out1].
    specialize (IH c1). destruct (refresh rest hasNamespaceSupport c1) as [[[] c2] out2].
    cbn [snd] in *. destruct IH as (IH1 & IH2 & IH3 & IH4).
    rewrite !count_events_app, invocations_app, Ht1, Ht2, Ht3, Ht4, IH1, IH2, IH3, IH4.
    by destruct hasNamespaceSupport.
  - by destruct hasNamespaceSupport.
Qed.

(** X4. With a positive period, [Start] asks the crawler once whether it
    supports namespaces, before anything else, then runs the initial crawl
    cycle and one cycle for each time the [select] of the refresh loop takes
    the ticker's case before it takes the context's. It lists the namespaces
    once in each of these cycles when the check answered true and never when
    it answered false, and it invokes no function. *)
Theorem Start_checks_once_then_cycles conf taken c support err w :
  HasNamespaceSupport (client c) = (support, err, w) →
  (0 < TopicRefreshTime conf)%Z →
  ∃ out,
    (Start (Some conf) taken c).1.1 = Returned
    ∧ (Start (Some conf) taken c).2 = CallHasNamespaceSupport :: out
    ∧ count_events is_support_check out = 0
    ∧ count_events is_cycle_end out = S (cycles taken)
    ∧ count_events is_listing out = (if support then S (cycles taken) else 0)
    ∧ invocations out = [].
Proof.
  intros Hcheck Hperiod. rewrite (Start_with_period _ _ _ _ _ _ Hcheck Hperiod).
  set (c0 := mkController w (cache c)).
  pose proof (refreshTick_counts support c0) as (Ht1 & Ht2 & Ht3 & Ht4).
  destruct (refreshTick support c0) as [[[] c1] out1].
  pose proof (refresh_counts taken support c1) as (Hr1 & Hr2 & Hr3 & Hr4).
  destruct (refresh taken support c1) as [[[] c2] out2].
  cbn [fst snd] in *. exists (out1 ++ out2). split_and!; [done|done|..];
    rewrite ?count_events_app, ?invocations_app, ?Ht1, ?Ht2, ?Ht3, ?Ht4,
      ?Hr1, ?Hr2, ?Hr3, ?Hr4; by destruct support.
Qed.


(** X5. A crawl cycle does not read what the cache held before: started
    with the same crawler and two different caches it makes the same calls,
    leaves the crawler in the same state and refreshes both caches with the
    same snapshot. And it invokes no function. *)
Theorem refreshTick_ignores_old_cache hasNamespaceSupport (w : W) (ca ca' : C) :
  client (refreshTick hasNamespaceSupport (mkController w ca)).1.2
  = client (refreshTick hasNamespaceSupport (mkController w ca')).1.2
  ∧ (refreshTick hasNamespaceSupport (mkController w ca)).2
    = (refreshTick hasNamespaceSupport (mkController w ca')).2
  ∧ (∃ snapshot,
       cache (refreshTick hasNamespaceSupport (mkController w ca)).1.2 = Refresh snapshot ca
       ∧ cache (refreshTick hasNamespaceSupport (mkController w ca')).1.2 = Refresh snapshot ca')
  ∧ invocations (refreshTick hasNamespaceSupport (mkController w ca)).2 = [].
Proof.
  pose proof (refreshTick_counts hasNamespaceSupport (mkController w ca)) as (_ & _ & _ & Hinv).
  split_and!; [| | |exact Hinv]; clear Hinv;
    destruct (scanned hasNamespaceSupport w) as [[namespaces w1] pre] eqn:Hscan;
    pose proof (crawlFunctions_cache_irrelevant namespaces NewFunctionMapBuilder w1 ca ca')
      as (Hb & Hw & Hout);
    destruct (crawlFunctions namespaces NewFunctionMapBuilder (mkController w1 ca))
      as [[b1 c1] out1] eqn:Hcrawl1;
    destruct (crawlFunctions namespaces NewFunctionMapBuilder (mkController w1 ca'))
      as [[b2 c2] out2] eqn:Hcrawl2;
    rewrite (refreshTick_outcome hasNamespaceSupport (mkController w ca) _ _ _ _ _ _ Hscan Hcrawl1);
    rewrite (refreshTick_outcome hasNamespaceSupport (mkController w ca') _ _ _ _ _ _ Hscan Hcrawl2);
    cbn in *; subst.
  - done.
  - done.
  - by exists (Build b2).
Qed.

(** X6. A crawl cycle refreshes the cache with what the builder builds
    from a new builder after appending, in the order of discovery, each
    topic of each function the cycle found with that function's identifier;
    a namespace listing or a function listing that fails contributes
    nothing. *)
Theorem refreshTick_publishes_crawled hasNamespaceSupport c :
  cache (refreshTick hasNamespaceSupport c).1.2
  = Refresh
      (Build (foldl (λ b pair, Append pair.1 pair.2 b) (NewFunctionMapBuilder (B := B))
                (associations (crawled hasNamespaceSupport (client c)))))
      (cache c).
Proof.
  unfold crawled.
  destruct (scanned hasNamespaceSupport (client c)) as [[namespaces w] pre] eqn:Hscan.
  pose proof (crawlFunctions_builder namespaces (NewFunctionMapBuilder (B := B))
                (mkController w (cache c))) as Hb.
  destruct (crawlFunctions namespaces NewFunctionMapBuilder (mkController w (cache c)))
    as [[b c'] out] eqn:Hcrawl.
  rewrite (refreshTick_outcome _ _ _ _ _ _ _ _ Hscan Hcrawl). cbn in *. by rewrite Hb.
Qed.

(** X8. An [Invoke] that follows a crawl cycle invokes, in order, an
    initial part of what the refreshed cache lists under the topic, the
    cache being refreshed with the snapshot of the functions that cycle
    found. *)
Theorem Invoke_after_refreshTick hasNamespaceSupport topic invocation c :
  invocations (Invoke topic invocation (refreshTick hasNamespaceSupport c).1.2).2
  `prefix_of`
  GetCachedValues topic
    (Refresh
       (Build (foldl (λ b pair, Append pair.1 pair.2 b) (NewFunctionMapBuilder (B := B))
                 (associations (crawled hasNamespaceSupport (client c)))))
       (cache c)).
Proof.
  unfold crawled.
  destruct (scanned hasNamespaceSupport (client c)) as [[namespaces w] pre] eqn:Hscan.
  pose proof (crawlFunctions_builder namespaces (NewFunctionMapBuilder (B := B))
                (mkController w (cache c))) as Hb.
  destruct (crawlFunctions namespaces NewFunctionMapBuilder (mkController w (cache c)))
    as [[b c'] out] eqn:Hcrawl.
  rewrite (refreshTick_outcome _ _ _ _ _ _ _ _ Hscan Hcrawl). cbn [fst snd client] in *.
  rewrite <- Hb.
  destruct (Invoke_outcome topic invocation
              (mkController (client c') (Refresh (Build b) (cache c))))
    as [(w' & _ & ->)|(fpre & fn & post & w1 & r & e & w2 & Hfns & _ & _ & ->)];
    cbn [fst snd cache] in *; rewrite invocations_app, invocations_of_calls; cbn.
  - by rewrite app_nil_r.
  - rewrite Hfns. exists post. by rewrite <- app_assoc.
Qed.

(** X9. Crawling a list of namespaces is crawling a first part of it and
    then the rest, from the builder and the crawler state the first part
    left: the events follow each other and the final builder is the one of
    the second crawl. *)
Theorem crawlFunctions_in_two_parts pre post builder c b1 c1 out1 b2 c2 out2 :
  crawlFunctions pre builder c = (b1, c1, out1) →
  crawlFunctions post b1 c1 = (b2, c2, out2) →
  crawlFunctions (pre ++ post) builder c = (b2, c2, out1 ++ out2).
Proof.
  intros Hpre Hpost. rewrite crawlFunctions_app.
  by apply (bind_run _ _ _ _ _ _ _ _ _ Hpre).
Qed.

End CycleFacts.

(** ** The further statements on the scripted gateways *)

(** A function annotated with three topics, one with a space inside and one
    empty, joined by commas. *)
Lemma extractTopics_of_three_joined :
  extractTopicsFromAnnotations (subscriber "resize" "orders,new users,")
  = ["orders"; "new users"; ""].
Proof.
  apply (extractTopics_of_joined_topics (subscriber "resize" "orders,new users,")
           {[ "topic" := "orders,new users," ]} ["orders"; "new users"; ""]).
  - reflexivity.
  - reflexivity.
  - discriminate.
  - repeat constructor.
Defined.

(** On [shop] the second of the three listeners fails: the error that comes
    back is the one of the call on mail.dev, made after billing.prod was
    invoked. *)
Lemma Invoke_shop_error_is_of_mail :
  ∃ pre fn post w1 r,
    GetCachedValues "order.created" three_listeners = pre ++ fn :: post
    ∧ invoked_all "payload" shop pre w1
    ∧ InvokeAsync fn "payload" w1
      = (r, Some "invocation failed",
         client (Invoke "order.created" "payload" (NewController shop three_listeners)).1.2)
    ∧ invocations (Invoke "order.created" "payload" (NewController shop three_listeners)).2
      = pre ++ [fn].
Proof.
  apply (proj2 (Invoke_result_meaning "order.created" "payload"
                  (NewController shop three_listeners)) "invocation failed").
  vm_compute; reflexivity.
Defined.

(** Started on [shop] with a period of one minute, when the loop takes the
    ticker's case once and then the context's, the controller checks once,
    runs the initial cycle and one more, and lists the namespaces in both. *)
Lemma Start_shop_two_cycles :
  ∃ out,
    (Start (B := FunctionMapBuilder) (Some every_minute) [Tick; Done; Tick]
       (NewController shop three_listeners)).1.1 = Returned
    ∧ (Start (B := FunctionMapBuilder) (Some every_minute) [Tick; Done; Tick]
         (NewController shop three_listeners)).2
      = CallHasNamespaceSupport :: out
    ∧ count_events is_support_check out = 0
    ∧ count_events is_cycle_end out = 2
    ∧ count_events is_listing out = 2
    ∧ invocations out = [].
Proof.
  refine (Start_checks_once_then_cycles (B := FunctionMapBuilder) every_minute
            [Tick; Done; Tick] (NewController shop three_listeners) true None shop eq_refl _).
  reflexivity.
Defined.


(** The crawl of [shop] over prod and dev, in two parts. *)
Lemma crawl_shop_in_two_parts :
  crawlFunctions (["prod"] ++ ["dev"]) (NewFunctionMapBuilder (B := FunctionMapBuilder))
    (NewController shop three_listeners)
  = (shop_snapshot, NewController shop three_listeners,
     [CallGetFunctions "prod"] ++ [CallGetFunctions "dev"]).
Proof.
  apply (crawlFunctions_in_two_parts ["prod"] ["dev"]
           (NewFunctionMapBuilder (B := FunctionMapBuilder)) (NewController shop three_listeners)
           ({[ "order.created" := ["billing.prod"] ]} : FunctionMapBuilder)
           (NewController shop three_listeners) [CallGetFunctions "prod"]).
  - vm_compute; reflexivity.
  - vm_compute; reflexivity.
Defined.
